(** * Console manager and adaptive performance helper

    A shallow embedding of [htdocs/js/console-manager.js]: the
    [ConsoleManager] class (substring-keyed suppression of console.error and
    console.warn) and the [AdaptivePerformanceSystem] class (network
    classification, scaled timeouts, bounded metrics history, retry with
    backoff, timeout race), followed by the properties proved about them.

    Conventions of the embedding:
    - [this] is passed explicitly and returned when a method mutates it;
    - calls that leave the page (the original console functions, the
      caller's operation, timers) are recorded as events, in program order;
    - an awaited promise is represented by the way it settles;
    - JavaScript numbers are IEEE 754 binary64 values ([float]);
      [Math.pow], whose accuracy ECMAScript leaves to the engine, is a
      parameter of the embedding. *)

From Stdlib Require Import ZArith QArith Qround Qpower Floats List String Ascii Bool Lia.
From Stdlib Require Import DecimalString.
From stdpp Require Import gmap strings.
Import ListNotations.

Set Warnings "-inexact-float,-register-all,-clear-no-such-hyp".
Local Open Scope Z_scope.

(** ** JavaScript numbers *)

Module JsNumber.

(** The binary64 value of an integer (nearest, ties to even). *)
Definition of_Z (n : Z) : float :=
  SF2Prim (binary_normalize prec emax n 0 false).

(** The integer a number is equal to, when it is one. *)
Definition to_Z (x : float) : option Z :=
  match Prim2SF x with
  | S754_zero _ => Some 0
  | S754_finite s m e =>
      let sm := if s then Z.neg m else Z.pos m in
      if 0 <=? e then Some (sm * 2 ^ e)
      else if Z.pos m mod 2 ^ (- e) =? 0 then Some (sm / 2 ^ (- e))
      else None
  | _ => None
  end.

(** [Math.round]: the integer closest to [x], the one towards +infinity
    when two are equally close; NaN, the infinities and the zeros are
    returned unchanged and a result that rounds to zero keeps the sign
    of [x]. For [x = (+/-) m * 2^e] with [e < 0] the result is
    [floor (x + 1/2)], computed on integers. *)
Definition Math_round (x : float) : float :=
  match Prim2SF x with
  | S754_finite s m e =>
      if 0 <=? e then x
      else
        let k := - e in
        let sm := if s then Z.neg m else Z.pos m in
        let n := Z.shiftr (2 * sm + 2 ^ k) (k + 1) in
        if n =? 0 then (if s then PrimFloat.neg_zero else PrimFloat.zero)
        else of_Z n
  | _ => x
  end.

(** [Math.pow]. ECMAScript asks for "an implementation-approximated
    value" and engines differ in the last bits, so the function belongs
    to the engine the code runs on and is a parameter of the embedding:
    what is proved of the retry loop holds on every engine, or on the
    engines that meet a stated hypothesis. *)
Class Engine := { Math_pow : float -> float -> float }.

(** The powers [1.5^n] that are binary64 values are those with
    [n <= 33], since [3^33 < 2^53 < 3^34]; there the quotient of [3^n]
    and [2^n] is computed without rounding. An engine is exact on them
    when its [Math.pow] returns these values. *)
Definition exact_powers (engine : Engine) : Prop :=
  forall n : Z, 0 <= n <= 33 ->
    Math_pow 1.5 (of_Z n) = (of_Z (3 ^ n) / of_Z (2 ^ n))%float.

(** The binary64 number nearest to [b^n], for a natural number [n]. *)
Definition nearest_power (b : float) (n : N) : float :=
  if (n =? 0)%N then 1%float
  else
    match Prim2SF b with
    | S754_finite s m e =>
        let sm := if s then Z.neg m else Z.pos m in
        SF2Prim (binary_normalize prec emax (sm ^ Z.of_N n) (e * Z.of_N n) false)
    | S754_zero s => if s && N.odd n then PrimFloat.neg_zero else PrimFloat.zero
    | S754_infinity s => if s && N.odd n then neg_infinity else infinity
    | S754_nan => nan
    end.

(** The integer part of a finite number (towards zero); 0 for NaN and
    the infinities, as in the integer conversions of the platform. *)
Definition truncate (x : float) : Z :=
  match Prim2SF x with
  | S754_finite s m e =>
      let sm := if s then Z.neg m else Z.pos m in
      if 0 <=? e then sm * 2 ^ e else Z.quot sm (2 ^ (- e))
  | _ => 0
  end.

(** The decimal digits of an integer, with its sign. *)
Definition string_of_Z (n : Z) : string :=
  NilZero.string_of_int (Z.to_int n).

(** The shortest decimal [s * 10^p] that converts to the number [x] of
    integer value [M > 0], searched from the largest [p] down. Of two
    candidates the one nearer to [M] is taken, the even one at equal
    distance. *)
Fixpoint shortest_decimal (fuel : nat) (x : float) (M p : Z) : Z * Z :=
  match fuel with
  | O => (M, 0)
  | S fuel' =>
      let below := M / 10 ^ p in
      let above := below + 1 in
      let converts s := (0 <? s) && (of_Z (s * 10 ^ p) =? x)%float in
      match converts below, converts above with
      | true, true =>
          let d := M - below * 10 ^ p in
          let d' := above * 10 ^ p - M in
          if d <? d' then (below, p)
          else if d' <? d then (above, p)
          else if Z.even below then (below, p) else (above, p)
      | true, false => (below, p)
      | false, true => (above, p)
      | false, false => shortest_decimal fuel' x M (p - 1)
      end
  end.

Fixpoint zeros (n : nat) : string :=
  match n with
  | O => ""
  | S n' => String "0" (zeros n')
  end.

(** The digits of [s * 10^p] as ECMAScript writes them: in full up to 21
    digits, with an exponent beyond. *)
Definition decimal (x : float) (M : Z) : string :=
  let '(s, p) :=
    shortest_decimal 20 x M (Z.of_nat (String.length (string_of_Z M))) in
  let digits := string_of_Z s in
  let n := Z.of_nat (String.length digits) + p in
  if n <=? 21 then (digits ++ zeros (Z.to_nat p))%string
  else
    (match digits with
     | String c EmptyString => digits
     | String c rest => String c ("." ++ rest)
     | EmptyString => digits
     end ++ "e+" ++ string_of_Z (n - 1))%string.

(** Number-to-string conversion, as a template literal does it, of NaN,
    the infinities and the numbers that are integers, which are the
    numbers [Math.round] returns. Below 2^53 every integer is written
    with its own digits; from there on the digits are those of the
    shortest decimal that converts to the number. *)
Definition toString (x : float) : string :=
  match Prim2SF x with
  | S754_nan => "NaN"
  | S754_infinity s => if s then "-Infinity" else "Infinity"
  | _ =>
      let n := truncate x in
      if Z.abs n <? 2 ^ 53 then string_of_Z n
      else ((if (n <? 0)%Z then "-" else "") ++ decimal (abs x) (Z.abs n))%string
  end.

(** The delay a timer gets from its argument: converted to a 32-bit
    signed integer, negative values taken as 0. *)
Definition timer_delay (x : float) : Z :=
  Z.max 0 ((truncate x + 2 ^ 31) mod 2 ^ 32 - 2 ^ 31).

End JsNumber.

(** Real-number reading of [Math.round]: the nearest integer, ties upwards. *)
Definition nearest_integer (q : Q) : Z := Qfloor (q + (1 # 2)).

(** ** Strings *)

(** [s.includes(pat)]: [pat] occurs in [s] as a contiguous substring. *)
Fixpoint includes (s pat : string) : bool :=
  String.prefix pat s ||
  match s with
  | EmptyString => false
  | String _ s' => includes s' pat
  end.

(** [s.startsWith(pat)] *)
Definition startsWith (s pat : string) : bool := String.prefix pat s.

Definition lower (c : ascii) : ascii :=
  let n := nat_of_ascii c in
  if ((65 <=? n) && (n <=? 90))%nat then ascii_of_nat (n + 32) else c.

(** Lower case on the letters A to Z, which is how a regular expression
    with the flag [i] compares the ASCII letters of its pattern. *)
Fixpoint lowercase (s : string) : string :=
  match s with
  | EmptyString => EmptyString
  | String c s' => String (lower c) (lowercase s')
  end.

(** [s.toLowerCase()] as far as ASCII letters go: the letters A to Z, and
    the two other characters whose lower case has an ASCII letter, U+0130
    (i followed by U+0307) and U+212A (k), in their UTF-8 encoding. The
    other characters, left as they are here, have no ASCII letter in their
    lower case, so a search for an ASCII text in the result is exact. *)
Fixpoint toLowerCase (s : string) : string :=
  match s with
  | EmptyString => EmptyString
  | String "196" (String "176" s') =>
      String "i" (String "204" (String "135" (toLowerCase s')))
  | String "226" (String "132" (String "170" s')) =>
      String "k" (toLowerCase s')
  | String c s' => String (lower c) (toLowerCase s')
  end.

(** The text before the first closing bracket, if there is one. *)
Fixpoint before_bracket (s : string) : option string :=
  match s with
  | EmptyString => None
  | String c s' =>
      if Ascii.eqb c "]" then Some EmptyString
      else option_map (String c) (before_bracket s')
  end.

(** [s.match(/\[([^\]]+)\]/)?.[1]]: the text between the first opening
    bracket that is followed by a character other than a closing bracket
    and the closing bracket after it. *)
Fixpoint bracketed (s : string) : option string :=
  match s with
  | EmptyString => None
  | String c s' =>
      if Ascii.eqb c "[" then
        match before_bracket s' with
        | Some (String c' group) => Some (String c' group)
        | _ => bracketed s'
        end
      else bracketed s'
  end.

(** ** ConsoleManager *)

Module ConsoleManager.

(** An argument of a console call, as far as the overrides look at it:
    [undefined], [null], a string, or any other value together with the
    text its [toString()] returns. *)
Inductive Arg :=
| AUndefined
| ANull
| AString (s : string)
| AOther (rendering : string).

(** [a?.toString()], [None] standing for [undefined]. *)
Definition toString (a : Arg) : option string :=
  match a with
  | AUndefined | ANull => None
  | AString s => Some s
  | AOther r => Some r
  end.

(** [args[0]?.toString() || ''] *)
Definition message (args : list Arg) : string :=
  match args with
  | a :: _ => default "" (toString a)
  | [] => ""
  end.

Inductive Level := Log | Warn | Error | Info.

(** A call of one of the functions saved in [originalConsole]. *)
Inductive Event := Original (level : Level) (args : list Arg).

Record DebugCategories := {
  booking : bool;
  auth : bool;
  firebase : bool;
  ui : bool;
  all : bool
}.

Record t := {
  suppressedErrors : gset string;
  productionMode : bool;
  debugCategories : DebugCategories;
  suppressPatterns : list string
}.

Definition defaultPatterns : list string :=
  [ "Tracking Prevention";
    "Permissions policy violation";
    "accelerometer";
    "streetview.js";
    "common.js";
    "init_embed.js";
    "Permission denied";
    "Error getting bookings";
    "Error getting users";
    "absences is not defined";
    "firebase-db.js";
    "Google Maps" ].

(** The fields as the constructor leaves them. *)
Definition constructor : t :=
  {| suppressedErrors := ∅;
     productionMode := true;
     debugCategories :=
       {| booking := false; auth := false; firebase := false;
          ui := false; all := false |};
     suppressPatterns := defaultPatterns |}.

Definition set_suppressedErrors (this : t) (s : gset string) : t :=
  {| suppressedErrors := s;
     productionMode := productionMode this;
     debugCategories := debugCategories this;
     suppressPatterns := suppressPatterns this |}.

(** [pattern.substring(0, 20)] and ['w-' + pattern.substring(0, 20)] *)
Definition errorKey (pattern : string) : string :=
  String.substring 0 20 pattern.

Definition warnKey (pattern : string) : string :=
  ("w-" ++ String.substring 0 20 pattern)%string.

(** The [for (const pattern of self.suppressPatterns)] loop shared by the
    two overrides. The boolean tells whether the loop left the function
    through its [return]; the set holds the keys added up to then. *)
Fixpoint scan (key : string -> string) (patterns : list string)
    (msg : string) (seen : gset string) : gset string * bool :=
  match patterns with
  | [] => (seen, false)
  | pattern :: rest =>
      if includes msg pattern then
        if bool_decide (key pattern ∈ seen) then (seen, true)
        else scan key rest msg ({[key pattern]} ∪ seen)
      else scan key rest msg seen
  end.

Definition override (level : Level) (key : string -> string)
    (this : t) (args : list Arg) : t * list Event :=
  let msg := message args in
  let '(seen, returned) :=
    scan key (suppressPatterns this) msg (suppressedErrors this) in
  (set_suppressedErrors this seen,
   if returned then [] else [Original level args]).

(** The function assigned to [console.error]. *)
Definition console_error : t -> list Arg -> t * list Event :=
  override Error errorKey.

(** The function assigned to [console.warn]. *)
Definition console_warn : t -> list Arg -> t * list Event :=
  override Warn warnKey.

Definition getErrorStats (this : t) : nat := size (suppressedErrors this).

Definition reset (this : t) : t := set_suppressedErrors this ∅.

Definition set_all (d : DebugCategories) (b : bool) : DebugCategories :=
  {| booking := booking d; auth := auth d; firebase := firebase d;
     ui := ui d; all := b |}.

(** The texts [console.log] always shows. *)
Definition alwaysShown : list string :=
  [ "✅"; "🚨"; "❌"; "Error"; "error"; "Success"; "success" ].

(** The function assigned to [console.log]. It reads the fields and
    changes none. *)
Definition console_log (this : t) (args : list Arg) : list Event :=
  let msg := message args in
  if existsb (includes msg) alwaysShown then [Original Log args]
  else if productionMode this && negb (all (debugCategories this)) then
    if startsWith msg "[" && includes msg "]" then
      let category := default "" (toLowerCase <$> bracketed msg) in
      let d := debugCategories this in
      if includes category "booking" && negb (booking d) then []
      else if includes category "auth" && negb (auth d) then []
      else if includes category "firebase" && negb (firebase d) then []
      else if includes category "ui" && negb (ui d) then []
      else [Original Log args]
    else [Original Log args]
  else [Original Log args].

(** [console.log] as a method finds it: the override when it is installed,
    the original function after [restore]. *)
Definition console_log_binding (installed : bool) (this : t)
    (args : list Arg) : list Event :=
  if installed then console_log this args else [Original Log args].

Definition enableVerboseMode (installed : bool) (this : t) : t * list Event :=
  let this' :=
    {| suppressedErrors := ∅;
       productionMode := false;
       debugCategories := set_all (debugCategories this) true;
       suppressPatterns := [] |} in
  (this',
   console_log_binding installed this'
     [AString "🔧 Verbose logging enabled"]).

Definition enableProductionMode (installed : bool) (this : t)
    : t * list Event :=
  let this' :=
    {| suppressedErrors := suppressedErrors this;
       productionMode := true;
       debugCategories := set_all (debugCategories this) false;
       suppressPatterns := suppressPatterns this |} in
  (this',
   console_log_binding installed this'
     [AString "🔧 Production logging enabled (minimal logs)"]).

Definition set_category (d : DebugCategories) (category : string)
    : option DebugCategories :=
  if String.eqb category "booking" then
    Some {| booking := true; auth := auth d; firebase := firebase d;
            ui := ui d; all := all d |}
  else if String.eqb category "auth" then
    Some {| booking := booking d; auth := true; firebase := firebase d;
            ui := ui d; all := all d |}
  else if String.eqb category "firebase" then
    Some {| booking := booking d; auth := auth d; firebase := true;
            ui := ui d; all := all d |}
  else if String.eqb category "ui" then
    Some {| booking := booking d; auth := auth d; firebase := firebase d;
            ui := true; all := all d |}
  else if String.eqb category "all" then Some (set_all d true)
  else None.

(** [hasOwnProperty] holds for the five category names only. *)
Definition enableDebugCategory (installed : bool) (this : t)
    (category : string) : t * list Event :=
  match set_category (debugCategories this) category with
  | Some d =>
      let this' :=
        {| suppressedErrors := suppressedErrors this;
           productionMode := productionMode this;
           debugCategories := d;
           suppressPatterns := suppressPatterns this |} in
      (this',
       console_log_binding installed this'
         [AString ("🔧 Debug enabled for: " ++ category)%string])
  | None => (this, [])
  end.

(** *** The page: the manager and the binding of the global console

    [installed] tells whether [console.log], [console.warn] and
    [console.error] are the overrides ([init]) or the saved originals
    ([restore]). *)
Record Page := {
  manager : t;
  installed : bool
}.

Definition load : Page := {| manager := constructor; installed := true |}.

Inductive Call :=
| ConsoleLog (args : list Arg)
| ConsoleError (args : list Arg)
| ConsoleWarn (args : list Arg)
| GetConsoleStats
| ResetConsoleTracking
| EnableVerboseLogging
| EnableProductionLogging
| EnableDebugCategory (category : string)
| Restore
| Init.

Definition with_manager (p : Page) (r : t * list Event) : Page * list Event :=
  ({| manager := fst r; installed := installed p |}, snd r).

Definition step (p : Page) (c : Call) : Page * list Event :=
  match c with
  | ConsoleLog args => (p, console_log_binding (installed p) (manager p) args)
  | ConsoleError args =>
      if installed p then with_manager p (console_error (manager p) args)
      else (p, [Original Error args])
  | ConsoleWarn args =>
      if installed p then with_manager p (console_warn (manager p) args)
      else (p, [Original Warn args])
  | GetConsoleStats => (p, [])
  | ResetConsoleTracking => with_manager p (reset (manager p), [])
  | EnableVerboseLogging =>
      with_manager p (enableVerboseMode (installed p) (manager p))
  | EnableProductionLogging =>
      with_manager p (enableProductionMode (installed p) (manager p))
  | EnableDebugCategory c =>
      with_manager p (enableDebugCategory (installed p) (manager p) c)
  | Restore => ({| manager := manager p; installed := false |}, [])
  | Init => ({| manager := manager p; installed := true |}, [])
  end.

(** A session: calls in program order, events concatenated. *)
Fixpoint run (p : Page) (calls : list Call) : Page * list Event :=
  match calls with
  | [] => (p, [])
  | c :: rest =>
      let '(p1, out1) := step p c in
      let '(p2, out2) := run p1 rest in
      (p2, out1 ++ out2)
  end.

(** The calls that leave the recorded keys, the pattern list and the
    overrides in place: all but a reset, verbose mode and [restore]. *)
Definition keeps_tracking (c : Call) : bool :=
  match c with
  | ResetConsoleTracking | EnableVerboseLogging | Restore => false
  | _ => true
  end.

End ConsoleManager.

(** ** JavaScript values, promises and the events of the helper *)

(** The values that occur: the primitive values, Error objects, plain
    objects (those of an object literal: their prototype is
    [Object.prototype] and their properties are data properties), arrays,
    and String objects as [new String(s)] makes them. *)
Inductive JsValue :=
| JUndefined
| JNull
| JBoolean (b : bool)
| JNumber (x : float)
| JString (s : string)
| JError (message : string)
| JTypeError (message : string)
| JObject (fields : list (string * JsValue))
| JArray (items : list JsValue)
| JStringObject (s : string).

(** An object as the list of its own properties, in insertion order. *)
Definition JsObject := list (string * JsValue).

Fixpoint get_field (o : JsObject) (k : string) : option JsValue :=
  match o with
  | [] => None
  | (k', v) :: rest => if String.eqb k' k then Some v else get_field rest k
  end.

(** Assignment to a property: an existing one keeps its place. *)
Fixpoint set_field (o : JsObject) (k : string) (v : JsValue) : JsObject :=
  match o with
  | [] => [(k, v)]
  | (k', v') :: rest =>
      if String.eqb k' k then (k, v) :: rest else (k', v') :: set_field rest k v
  end.

(** The error thrown by a property read on [undefined] or [null], with the
    message V8 gives it. *)
Definition cannot_read (of_what property : string) : JsValue :=
  JTypeError ("Cannot read properties of " ++ of_what ++
              " (reading '" ++ property ++ "')")%string.

(** [e.message]: the value read, or the TypeError the read throws. *)
Definition get_message (e : JsValue) : JsValue + JsValue :=
  match e with
  | JUndefined => inr (cannot_read "undefined" "message")
  | JNull => inr (cannot_read "null" "message")
  | JError m | JTypeError m => inl (JString m)
  | JObject fields => inl (default JUndefined (get_field fields "message"))
  | JBoolean _ | JNumber _ | JString _ | JArray _ | JStringObject _ =>
      inl JUndefined
  end.

Inductive Settled :=
| Fulfilled (v : JsValue)
| Rejected (e : JsValue).

(** A promise, by its fate: it settles some milliseconds after it was
    created, or it never does. *)
Inductive Promise :=
| Settles (after : Z) (how : Settled)
| Never.

(** What a call [operation()] does: it returns a promise or throws. A
    returned value that is not a promise counts as a promise fulfilled at
    once. *)
Inductive Completion :=
| Returns (p : Promise)
| Throws (e : JsValue).

(** The caller's operation, with the world [W] it works on. *)
Definition Operation (W : Type) := W -> Completion * W.

(** [await operation()] *)
Definition awaited (c : Completion) : option Settled :=
  match c with
  | Returns (Settles _ how) => Some how
  | Returns Never => None
  | Throws e => Some (Rejected e)
  end.

(** The promise of two that settles first; the first one at equal instants,
    its reaction being registered first. *)
Definition first_settled (p q : Promise) : Promise :=
  match p, q with
  | Settles t _, Settles t' _ => if t <=? t' then p else q
  | Never, _ => q
  | _, Never => p
  end.

(** [Promise.race] *)
Definition Promise_race (ps : list Promise) : Promise :=
  fold_right first_settled Never ps.

(** What an async method of the helper does, in program order: console
    calls (recorded for [executeWithRetry], where the argument of one
    decides how a run goes on), the call [operation()], the wait for a
    timer started with [setTimeout(resolve, ms)], and the start of the
    timer that [executeWithTimeout] races against. Both timer events
    hold the number as it is passed to [setTimeout]; the timer then runs
    for [timer_delay ms] milliseconds. *)
Inductive Event :=
| ConsoleLog (args : list JsValue)
| ConsoleWarn (args : list JsValue)
| ConsoleError (args : list JsValue)
| Invoke
| Sleep (ms : float)
| StartTimer (ms : float).

(** How the promise of an async method ends. *)
Inductive Result :=
| Resolves (v : JsValue)
| Rejects (e : JsValue)
| Hangs.

(** ** AdaptivePerformanceSystem *)

Module AdaptivePerformanceSystem.

Import JsNumber.

Inductive NetworkSpeed := fast | normal | slow.
Inductive DeviceCapability := high | medium | low.

(** *** What the browser exposes to the helper *)

Record Connection := {
  effectiveType : option string;
  downlink : option float
}.

Record Navigator := {
  connection : option Connection;
  mozConnection : option Connection;
  webkitConnection : option Connection;
  hardwareConcurrency : option float;
  deviceMemory : option float;
  userAgent : string
}.

Record Timing := {
  loadEventEnd : Z;
  navigationStart : Z
}.

Record Memory := {
  usedJSHeapSize : float;
  jsHeapSizeLimit : float
}.

Record Performance := {
  timing : option Timing;
  memory : option Memory
}.

(** [None] for a global that is not defined: reading it throws. *)
Record Browser := {
  navigator : option Navigator;
  performance : option Performance
}.

(** *** The fields *)

Record t := {
  networkSpeed : NetworkSpeed;
  deviceCapability : DeviceCapability;
  performanceMetrics : list JsObject
}.

(** Fields that are assigned in the constructor only. *)
Definition baseTimeouts : list (string * float) :=
  [ ("loginCheck", 8000); ("userFetch", 8000); ("warningPanel", 5000);
    ("autoCancel", 5000); ("bookingsLoad", 15000); ("notifications", 5000);
    ("firebaseUser", 45000); ("debounce", 300); ("scrollDelay", 150) ]%float.

Definition retryAttempts : Z := 3.
Definition retryBackoffMultiplier : float := 1.5.
Definition maxMetricsHistory : nat := 100.

Definition set_networkSpeed (this : t) (v : NetworkSpeed) : t :=
  {| networkSpeed := v;
     deviceCapability := deviceCapability this;
     performanceMetrics := performanceMetrics this |}.

Definition set_deviceCapability (this : t) (v : DeviceCapability) : t :=
  {| networkSpeed := networkSpeed this;
     deviceCapability := v;
     performanceMetrics := performanceMetrics this |}.

Definition set_performanceMetrics (this : t) (v : list JsObject) : t :=
  {| networkSpeed := networkSpeed this;
     deviceCapability := deviceCapability this;
     performanceMetrics := v |}.

(** *** detectNetworkSpeed *)

(** [a || b] on values that are objects when present. *)
Definition or_else {A} (a b : option A) : option A :=
  match a with Some _ => a | None => b end.

Definition classify_effectiveType (effectiveType : option string)
    : option NetworkSpeed :=
  match effectiveType with
  | Some s =>
      if String.eqb s "4g" || String.eqb s "wifi" then Some fast
      else if String.eqb s "3g" then Some normal
      else if String.eqb s "2g" || String.eqb s "slow-2g" then Some slow
      else None
  | None => None
  end.

Definition classify_pageLoadTime (pageLoadTime : Z) : NetworkSpeed :=
  if 3000 <? pageLoadTime then slow
  else if 1500 <? pageLoadTime then normal
  else fast.

Definition detectNetworkSpeed (env : Browser) (this : t) : t :=
  match navigator env with
  | None => set_networkSpeed this normal
  | Some nav =>
      match or_else (connection nav)
              (or_else (mozConnection nav) (webkitConnection nav)) with
      | Some connection =>
          match classify_effectiveType (effectiveType connection) with
          | Some speed => set_networkSpeed this speed
          | None => this
          end
      | None =>
          match performance env with
          | Some perf =>
              match timing perf with
              | Some timing =>
                  let pageLoadTime :=
                    loadEventEnd timing - navigationStart timing in
                  set_networkSpeed this (classify_pageLoadTime pageLoadTime)
              | None => this
              end
          | None => this
          end
      end
  end.

(** *** detectDeviceCapability *)

(** [x || d] on a number that may be absent. *)
Definition number_or (x : option float) (d : float) : float :=
  match x with
  | Some v => if is_nan v || is_zero v then d else v
  | None => d
  end.

Definition mobileNames : list string :=
  [ "Android"; "webOS"; "iPhone"; "iPad"; "iPod"; "BlackBerry"; "IEMobile";
    "Opera Mini" ].

(** The case-insensitive test of the user agent against the alternatives. *)
Definition isMobile (userAgent : string) : bool :=
  existsb (fun name => includes (lowercase userAgent) (lowercase name))
    mobileNames.

Definition detectDeviceCapability (env : Browser) (this : t) : t :=
  match navigator env with
  | None => set_deviceCapability this medium
  | Some nav =>
      let cores := number_or (hardwareConcurrency nav) 1 in
      let ram := number_or (deviceMemory nav) 4 in
      let isMobile := isMobile (userAgent nav) in
      if (4 <=? cores)%float && (8 <=? ram)%float && negb isMobile then
        set_deviceCapability this high
      else if (2 <=? cores)%float && (4 <=? ram)%float then
        set_deviceCapability this medium
      else set_deviceCapability this low
  end.

(** *** recordMetric *)

(** [{...metric, timestamp: Date.now()}] is pushed; one entry is shifted
    out when the array has grown beyond [maxMetricsHistory]. *)
Definition recordMetric (now : Z) (metric : JsObject) (this : t) : t :=
  let pushed :=
    performanceMetrics this ++
    [set_field metric "timestamp" (JNumber (of_Z now))] in
  set_performanceMetrics this
    (if (maxMetricsHistory <? length pushed)%nat then tl pushed else pushed).

(** *** The callbacks registered by [init] *)

Record ResourceEntry := {
  entry_name : string;
  entry_duration : float;
  entry_transferSize : option float
}.

Definition resource_metric (entry : ResourceEntry) : JsObject :=
  [ ("type", JString "resource");
    ("name", JString (entry_name entry));
    ("duration", JNumber (entry_duration entry));
    ("size", JNumber (number_or (entry_transferSize entry) 0)) ].

(** The PerformanceObserver callback: one metric per entry, each with the
    clock reading of its own call. *)
Fixpoint resourceObserver (entries : list (ResourceEntry * Z)) (this : t) : t :=
  match entries with
  | [] => this
  | (entry, now) :: rest =>
      resourceObserver rest (recordMetric now (resource_metric entry) this)
  end.

(** The memory check that runs every five seconds. *)
Definition memoryCheck (env : Browser) (this : t) : t :=
  match performance env with
  | Some perf =>
      match memory perf with
      | Some mem =>
          let memoryUsage := (usedJSHeapSize mem / jsHeapSizeLimit mem)%float in
          if (0.9 <? memoryUsage)%float then set_deviceCapability this low
          else if (memoryUsage <? 0.5)%float then
            match deviceCapability this with
            | low => detectDeviceCapability env this
            | _ => this
            end
          else this
      | None => this
      end
  | None => this
  end.

(** *** init, the constructor and reset *)

Definition init (env : Browser) (this : t) : t :=
  detectDeviceCapability env (detectNetworkSpeed env this).

Definition constructor (env : Browser) : t :=
  init env
    {| networkSpeed := normal;
       deviceCapability := medium;
       performanceMetrics := [] |}.

Definition reset (env : Browser) (this : t) : t :=
  init env (set_performanceMetrics this []).

(** *** getTimeout *)

(** The names every object inherits from [Object.prototype]. *)
Definition objectPrototype : list string :=
  [ "constructor"; "__defineGetter__"; "__defineSetter__"; "hasOwnProperty";
    "__lookupGetter__"; "__lookupSetter__"; "isPrototypeOf";
    "propertyIsEnumerable"; "toString"; "valueOf"; "__proto__";
    "toLocaleString" ].

(** What [this.baseTimeouts[operation]] reads: a number of the table, a
    member of the prototype (a function or an object), or [undefined]. *)
Inductive Property :=
| Own (x : float)
| Inherited
| Undefined.

Fixpoint own (table : list (string * float)) (k : string) : option float :=
  match table with
  | [] => None
  | (k', x) :: rest => if String.eqb k' k then Some x else own rest k
  end.

Definition get (table : list (string * float)) (k : string) : Property :=
  match own table k with
  | Some x => Own x
  | None =>
      if existsb (String.eqb k) objectPrototype then Inherited else Undefined
  end.

(** [p || 5000] *)
Definition or_5000 (p : Property) : Property :=
  match p with
  | Own x => if is_nan x || is_zero x then Own 5000 else Own x
  | Inherited => Inherited
  | Undefined => Own 5000
  end.

(** The number a property value is multiplied as: a function or an object
    of the prototype converts to NaN. *)
Definition ToNumber (p : Property) : float :=
  match p with
  | Own x => x
  | Inherited | Undefined => nan
  end.

Definition networkMultiplier (s : NetworkSpeed) : float :=
  match s with
  | fast => 0.8
  | normal => 1.0
  | slow => 2.0
  end.

Definition deviceMultiplier (d : DeviceCapability) : float :=
  match d with
  | high => 0.8
  | medium => 1.0
  | low => 1.5
  end.

Definition getTimeout (this : t) (operation : string) : float :=
  let baseTimeout := or_5000 (get baseTimeouts operation) in
  let networkMultiplier := networkMultiplier (networkSpeed this) in
  let deviceMultiplier := deviceMultiplier (deviceCapability this) in
  Math_round (ToNumber baseTimeout * networkMultiplier * deviceMultiplier).

(** *** executeWithRetry *)

(** [Math.round(1000 * Math.pow(this.retryBackoffMultiplier, attempt - 1))],
    evaluated on binary64 numbers with the engine's [Math.pow]. *)
Definition backoffDelay {engine : Engine} (attempt : Z) : float :=
  Math_round (1000 * Math_pow retryBackoffMultiplier (of_Z (attempt - 1))).

Definition executing (operationName : string) (attempt maxAttempts : Z) : Event :=
  ConsoleLog [JString ("[AdaptivePerformance] Executing " ++ operationName ++
    " (attempt " ++ string_of_Z attempt ++ "/" ++ string_of_Z maxAttempts ++
    ")")%string].

Definition succeeded (operationName : string) (attempt : Z) : Event :=
  ConsoleLog [JString ("[AdaptivePerformance] " ++ operationName ++
    " succeeded on attempt " ++ string_of_Z attempt)%string].

Definition failed (operationName : string) (attempt : Z) (message : JsValue)
    : Event :=
  ConsoleWarn [JString ("[AdaptivePerformance] " ++ operationName ++
    " failed on attempt " ++ string_of_Z attempt ++ ":")%string; message].

Definition retrying (operationName : string) (backoffDelay : float) : Event :=
  ConsoleLog [JString ("[AdaptivePerformance] Retrying " ++ operationName ++
    " in " ++ toString backoffDelay ++ "ms...")%string].

Definition gave_up (operationName : string) (maxAttempts : Z) : Event :=
  ConsoleError [JString ("[AdaptivePerformance] " ++ operationName ++
    " failed after " ++ string_of_Z maxAttempts ++ " attempts")%string].

(** The [for] loop from [attempt] on, followed by the statements after
    it. [fuel] bounds the number of iterations; [None] means it ran out. *)
Fixpoint attempts {engine : Engine} {W} (fuel : nat) (operation : Operation W)
    (operationName : string) (maxAttempts attempt : Z)
    (lastError : JsValue) (w : W) : option (Result * W * list Event) :=
  if attempt <=? maxAttempts then
    match fuel with
    | O => None
    | S fuel' =>
        let start := [executing operationName attempt maxAttempts; Invoke] in
        let '(completion, w1) := operation w in
        match awaited completion with
        | None => Some (Hangs, w1, start)
        | Some (Fulfilled result) =>
            Some (Resolves result, w1,
                  start ++ [succeeded operationName attempt])
        | Some (Rejected error) =>
            match get_message error with
            | inr typeError => Some (Rejects typeError, w1, start)
            | inl message =>
                let pause :=
                  if attempt <? maxAttempts then
                    [retrying operationName (backoffDelay attempt);
                     Sleep (backoffDelay attempt)]
                  else [] in
                match attempts fuel' operation operationName maxAttempts
                        (attempt + 1) error w1 with
                | Some (r, w2, later) =>
                    Some (r, w2,
                          start ++ [failed operationName attempt message] ++
                          pause ++ later)
                | None => None
                end
            end
        end
    end
  else Some (Rejects lastError, w, [gave_up operationName maxAttempts]).

(** [operationName] and [maxAttempts] take their defaults when they are
    not passed; [maxAttempts] iterations are enough fuel. *)
Definition executeWithRetry {engine : Engine} {W} (operation : Operation W)
    (operationName : option string) (maxAttempts : option Z) (w : W)
    : option (Result * W * list Event) :=
  let operationName := default "operation"%string operationName in
  let maxAttempts := default retryAttempts maxAttempts in
  attempts (Z.to_nat maxAttempts) operation operationName maxAttempts 1
    JUndefined w.

(** *** executeWithTimeout *)

Definition timeout_error (operationName : string) (timeout : float) : JsValue :=
  JError (operationName ++ " timeout after " ++ toString timeout ++ "ms")%string.

(** The promise the method returns. A call [operation()] that throws
    rejects it before the timer is started. *)
Definition executeWithTimeout {W} (this : t) (operation : Operation W)
    (operationName : string) (w : W) : Promise * W * list Event :=
  let timeout := getTimeout this operationName in
  let '(completion, w1) := operation w in
  match completion with
  | Throws e => (Settles 0 (Rejected e), w1, [Invoke])
  | Returns p =>
      let timer :=
        Settles (timer_delay timeout)
          (Rejected (timeout_error operationName timeout)) in
      (Promise_race [p; timer], w1, [Invoke; StartTimer timeout])
  end.

(** The operations that write to the fields. [getTimeout],
    [executeWithRetry], [executeWithTimeout] and [getPerformanceReport]
    only read them. *)
Inductive Call :=
| DetectNetworkSpeed (env : Browser)
| DetectDeviceCapability (env : Browser)
| RecordMetric (now : Z) (metric : JsObject)
| ResourceObserver (entries : list (ResourceEntry * Z))
| MemoryCheck (env : Browser)
| Reset (env : Browser).

Definition step (this : t) (c : Call) : t :=
  match c with
  | DetectNetworkSpeed env => detectNetworkSpeed env this
  | DetectDeviceCapability env => detectDeviceCapability env this
  | RecordMetric now metric => recordMetric now metric this
  | ResourceObserver entries => resourceObserver entries this
  | MemoryCheck env => memoryCheck env this
  | Reset env => reset env this
  end.

(** The states of an instance: built by the constructor, changed by calls. *)
Inductive reachable : t -> Prop :=
| reachable_constructor env : reachable (constructor env)
| reachable_step this c : reachable this -> reachable (step this c).

End AdaptivePerformanceSystem.

(** * Properties of the string functions *)

Section StringProperties.

Lemma prefix_spec (pat s : string) :
  String.prefix pat s = true <-> exists rest, s = (pat ++ rest)%string.
Proof.
  revert s. induction pat as [|c pat IH]; intros s.
  - split; [intros _; by exists s|by destruct s].
  - destruct s as [|c' s].
    + split; [done|]. intros [rest Hrest]. discriminate Hrest.
    + change (String.prefix (String c pat) (String c' s))
        with (if Ascii.ascii_dec c c' then String.prefix pat s else false).
      destruct (Ascii.ascii_dec c c') as [->|Hne].
      * rewrite IH. split; intros [rest Hrest]; exists rest.
        -- by rewrite Hrest.
        -- by injection Hrest.
      * split; [done|]. intros [rest Hrest]. injection Hrest. congruence.
Qed.

(** [includes] finds exactly the contiguous occurrences. *)
Lemma includes_spec (s pat : string) :
  includes s pat = true <->
  exists before after, s = (before ++ pat ++ after)%string.
Proof.
  induction s as [|c s IH].
  - change (includes "" pat) with (String.prefix pat "" || false).
    rewrite orb_false_r, prefix_spec. split.
    + intros [rest Hrest]. by exists ""%string, rest.
    + intros (before & after & Hs). destruct before; [by exists after|done].
  - change (includes (String c s) pat)
      with (String.prefix pat (String c s) || includes s pat).
    rewrite orb_true_iff, prefix_spec, IH. split.
    + intros [[rest Hrest]|(before & after & Hs)].
      * by exists ""%string, rest.
      * exists (String c before), after. by rewrite Hs.
    + intros (before & after & Hs). destruct before as [|c' before].
      * left. by exists after.
      * right. exists before, after. by injection Hs.
Qed.

End StringProperties.

(** * Properties of the console manager *)

Section ConsoleManagerProperties.

Import ConsoleManager.

(** Some pattern contained in [msg] has its key among [seen]. *)
Definition hit (key : string -> string) (patterns : list string)
    (msg : string) (seen : gset string) : bool :=
  existsb
    (fun pattern => includes msg pattern && bool_decide (key pattern ∈ seen))
    patterns.

(** [msg] contains one of the patterns. *)
Definition noisy (patterns : list string) (msg : string) : bool :=
  existsb (includes msg) patterns.

(** An error message with a pattern whose key is recorded. *)
Definition already_recorded (this : t) (msg : string) : bool :=
  hit errorKey (suppressPatterns this) msg (suppressedErrors this).

Lemma hit_mono key patterns msg (seen seen' : gset string) :
  seen ⊆ seen' ->
  hit key patterns msg seen = true -> hit key patterns msg seen' = true.
Proof.
  intros Hsub. unfold hit. rewrite !existsb_exists.
  intros (p & Hin & Hp). exists p. split; [done|].
  apply andb_true_iff in Hp as [Hinc Hkey].
  apply bool_decide_eq_true in Hkey.
  rewrite Hinc. simpl. apply bool_decide_eq_true. set_solver.
Qed.

Lemma hit_fresh_key key patterns msg (seen : gset string) k :
  k ∉ (key <$> patterns) ->
  hit key patterns msg ({[k]} ∪ seen) = hit key patterns msg seen.
Proof.
  induction patterns as [|p rest IH]; intros Hk; [done|].
  simpl in *. rewrite IH by set_solver.
  f_equal. f_equal. apply bool_decide_ext. set_solver.
Qed.

Lemma scan_grows key patterns msg (seen : gset string) :
  seen ⊆ (scan key patterns msg seen).1.
Proof.
  revert seen. induction patterns as [|p rest IH]; intros seen; simpl; [done|].
  destruct (includes msg p); [|apply IH].
  case_bool_decide; simpl; [done|].
  etrans; [|apply IH]. set_solver.
Qed.

(** The loop leaves through its [return] exactly when a contained pattern
    is already recorded, provided no two patterns share a key. *)
Lemma scan_returned key patterns msg (seen : gset string) :
  NoDup (key <$> patterns) ->
  (scan key patterns msg seen).2 = hit key patterns msg seen.
Proof.
  revert seen. induction patterns as [|p rest IH]; intros seen Hnd; [done|].
  apply NoDup_cons in Hnd as [Hp Hrest]. simpl.
  destruct (includes msg p); simpl; [|by apply IH].
  case_bool_decide; simpl; [done|].
  rewrite IH by done. by apply hit_fresh_key.
Qed.

(** When the loop runs to its end, the keys of all contained patterns
    have been added. *)
Lemma scan_passed key patterns msg (seen : gset string) :
  (scan key patterns msg seen).2 = false ->
  (scan key patterns msg seen).1 =
    seen ∪ list_to_set (key <$> filter (fun p => includes msg p = true) patterns).
Proof.
  revert seen. induction patterns as [|p rest IH]; intros seen; simpl.
  - intros _. set_solver.
  - rewrite filter_cons. destruct (includes msg p) eqn:Hinc.
    + rewrite decide_True by done. case_bool_decide; simpl; [done|].
      intros Hret. rewrite IH by done. set_solver.
    + rewrite decide_False by (by intros ?). apply IH.
Qed.

(** However the loop ends, a message that contains a pattern finds one of
    its patterns recorded afterwards. *)
Lemma scan_records key patterns msg (seen : gset string) :
  noisy patterns msg = true ->
  hit key patterns msg (scan key patterns msg seen).1 = true.
Proof.
  unfold noisy, hit. revert seen.
  induction patterns as [|p rest IH]; intros seen; simpl; [done|].
  destruct (includes msg p) eqn:Hinc; simpl.
  - intros _. destruct (bool_decide (key p ∈ seen)) eqn:Hk; simpl.
    + by rewrite Hk.
    + rewrite bool_decide_eq_true_2; [done|].
      apply (scan_grows key rest msg). set_solver.
  - apply IH.
Qed.

Lemma defaultPatterns_errorKeys : NoDup (errorKey <$> defaultPatterns).
Proof. apply (bool_decide_unpack _). by vm_compute. Qed.

Lemma defaultPatterns_warnKeys : NoDup (warnKey <$> defaultPatterns).
Proof. apply (bool_decide_unpack _). by vm_compute. Qed.

(** Such calls keep the overrides installed and the pattern list in place,
    and never remove a recorded key. *)
Lemma step_keeps_tracking p c :
  keeps_tracking c = true ->
  installed p = true ->
  installed (step p c).1 = true /\
  suppressPatterns (manager (step p c).1) = suppressPatterns (manager p) /\
  suppressedErrors (manager p) ⊆ suppressedErrors (manager (step p c).1).
Proof.
  intros Hc Hp. destruct c; try discriminate; simpl; rewrite ?Hp; try done.
  - unfold console_error, override.
    pose proof (scan_grows errorKey (suppressPatterns (manager p))
                  (message args) (suppressedErrors (manager p))).
    by destruct (scan errorKey _ _ _).
  - unfold console_warn, override.
    pose proof (scan_grows warnKey (suppressPatterns (manager p))
                  (message args) (suppressedErrors (manager p))).
    by destruct (scan warnKey _ _ _).
  - unfold enableDebugCategory. by destruct (set_category _ _).
Qed.

Lemma run_keeps_tracking calls p :
  forallb keeps_tracking calls = true ->
  installed p = true ->
  installed (run p calls).1 = true /\
  suppressPatterns (manager (run p calls).1) = suppressPatterns (manager p) /\
  suppressedErrors (manager p) ⊆ suppressedErrors (manager (run p calls).1).
Proof.
  revert p. induction calls as [|c rest IH]; intros p Hcalls Hp; [done|].
  simpl in Hcalls. apply andb_true_iff in Hcalls as [Hc Hrest].
  destruct (step_keeps_tracking p c Hc Hp) as (Hi & Hpat & Hsub).
  simpl. destruct (step p c) as [p1 out1]. simpl in *.
  destruct (IH p1 Hrest Hi) as (Hi' & Hpat' & Hsub').
  destruct (run p1 rest) as [p2 out2]. simpl in *.
  split; [done|]. split; [congruence|]. set_solver.
Qed.

Lemma override_output level key this args :
  NoDup (key <$> suppressPatterns this) ->
  (override level key this args).2 =
    if hit key (suppressPatterns this) (message args) (suppressedErrors this)
    then [] else [Original level args].
Proof.
  intros Hnd. unfold override.
  rewrite <- (scan_returned key _ (message args) (suppressedErrors this) Hnd).
  by destruct (scan key _ _ _) as [seen []].
Qed.

Lemma override_fields level key this args :
  suppressPatterns (override level key this args).1 = suppressPatterns this /\
  suppressedErrors (override level key this args).1 =
    (scan key (suppressPatterns this) (message args) (suppressedErrors this)).1.
Proof. unfold override. by destruct (scan key _ _ _). Qed.

(** Nothing but the constructor fills the pattern list. *)
Lemma step_patterns_nil p c :
  suppressPatterns (manager p) = [] ->
  suppressPatterns (manager (step p c).1) = [].
Proof.
  intros Hnil. destruct c; simpl; try done.
  - destruct (installed p); [|done]. simpl. unfold console_error.
    by rewrite (proj1 (override_fields _ _ _ _)).
  - destruct (installed p); [|done]. simpl. unfold console_warn.
    by rewrite (proj1 (override_fields _ _ _ _)).
  - unfold enableDebugCategory. by destruct (set_category _ _).
Qed.

Lemma run_patterns_nil calls p :
  suppressPatterns (manager p) = [] ->
  suppressPatterns (manager (run p calls).1) = [].
Proof.
  revert p. induction calls as [|c rest IH]; intros p Hnil; [done|].
  simpl. pose proof (step_patterns_nil p c Hnil) as H1.
  destruct (step p c) as [p1 out1]. specialize (IH p1 H1).
  by destruct (run p1 rest).
Qed.

Lemma step_no_patterns_passes p :
  suppressPatterns (manager p) = [] ->
  forall args,
    (step p (ConsoleError args)).2 = [Original Error args] /\
    (step p (ConsoleWarn args)).2 = [Original Warn args].
Proof.
  intros Hnil args. simpl. destruct (installed p); [|done].
  unfold console_error, console_warn, override. by rewrite Hnil.
Qed.

(** C6. After [enableVerboseMode] the set of recorded keys and the
    pattern list are empty, and whatever is called afterwards (production
    mode, a reset and [init] included), every [console.error] and
    [console.warn] call is handed to the original function with its
    arguments unchanged: no pattern is left to filter by. *)
Theorem enableVerboseMode_ends_filtering (p : Page) (calls : list Call)
    (args : list Arg) :
  let verbose := (step p EnableVerboseLogging).1 in
  let later := (run verbose calls).1 in
  suppressedErrors (manager verbose) = ∅ /\
  suppressPatterns (manager verbose) = [] /\
  (step later (ConsoleError args)).2 = [Original Error args] /\
  (step later (ConsoleWarn args)).2 = [Original Warn args].
Proof.
  intros verbose later.
  assert (Hnil : suppressPatterns (manager verbose) = []) by done.
  split; [done|]. split; [done|].
  apply step_no_patterns_passes. by apply run_patterns_nil.
Qed.

(** C5, as amended. With the overrides installed and the constructor's
    patterns in place, [console.error] hands a message to the original
    function, arguments unchanged, unless a pattern it contains is
    already recorded; then it drops it, first occurrence or not. Once a
    message that contains a pattern has been handled, a later occurrence
    of it is dropped, unless the tracking was reset, verbose mode enabled
    or the overrides removed in between; a message without a pattern is
    never dropped. *)
Theorem console_error_suppression (p : Page) (args : list Arg)
    (calls : list Call) :
  installed p = true ->
  suppressPatterns (manager p) = defaultPatterns ->
  forallb keeps_tracking calls = true ->
  let first := step p (ConsoleError args) in
  let again := step (run first.1 calls).1 (ConsoleError args) in
  first.2 =
    (if already_recorded (manager p) (message args) then []
     else [Original Error args]) /\
  again.2 =
    (if noisy defaultPatterns (message args) then []
     else [Original Error args]).
Proof.
  intros Hinst Hpat Hcalls first again.
  pose proof defaultPatterns_errorKeys as Hnd.
  destruct (override_fields Error errorKey (manager p) args) as [Hp1 Hs1].
  assert (Hfirst : first = with_manager p (console_error (manager p) args))
    by (subst first; simpl; by rewrite Hinst).
  clearbody first. subst first.
  set (p1 := (with_manager p (console_error (manager p) args)).1) in *.
  assert (Hi1 : installed p1 = true) by done.
  destruct (run_keeps_tracking calls p1 Hcalls Hi1) as (Hi & Hp2 & Hsub).
  set (p2 := (run p1 calls).1) in *.
  assert (Hpat2 : suppressPatterns (manager p2) = defaultPatterns).
  { rewrite Hp2. subst p1. unfold console_error. simpl. congruence. }
  assert (Hagain : again = with_manager p2 (console_error (manager p2) args))
    by (subst again; simpl; by rewrite Hi).
  clearbody again. subst again.
  unfold with_manager, console_error, already_recorded.
  cbn [fst snd].
  rewrite !override_output by (rewrite ?Hpat, ?Hpat2; done).
  rewrite Hpat, Hpat2. split; [done|].
  destruct (noisy defaultPatterns (message args)) eqn:Hnoisy.
  - rewrite (hit_mono errorKey defaultPatterns (message args) _ _ Hsub); [done|].
    subst p1. unfold console_error. cbn [fst snd with_manager manager].
    rewrite Hs1, Hpat. by apply scan_records.
  - replace (hit errorKey defaultPatterns (message args) _) with false; [done|].
    symmetry. apply not_true_is_false. intros Hhit.
    unfold hit in Hhit. apply existsb_exists in Hhit as (q & Hq & Hq').
    apply andb_true_iff in Hq' as [Hinc _].
    assert (noisy defaultPatterns (message args) = true); [|congruence].
    apply existsb_exists. eauto.
Qed.

(** With nothing recorded, as on the freshly loaded page and after a reset,
    [console.error] passes every message on. *)
Lemma console_error_nothing_recorded (this : t) (msg : string) :
  suppressedErrors this = ∅ -> already_recorded this msg = false.
Proof.
  intros Hempty. unfold already_recorded, hit. rewrite Hempty.
  induction (suppressPatterns this) as [|q rest IH]; [done|].
  simpl. rewrite IH. rewrite bool_decide_eq_false_2 by set_solver.
  by rewrite andb_false_r.
Qed.

(** It is [console.log] that treats the word Error apart: a message with
    it is always passed on. *)
Lemma console_log_shows_Error (this : t) (args : list Arg) :
  includes (message args) "Error" = true ->
  console_log this args = [Original Log args].
Proof.
  intros HError. unfold console_log.
  replace (existsb (includes (message args)) alwaysShown) with true; [done|].
  symmetry. apply existsb_exists. exists "Error"%string.
  split; [|done]. unfold alwaysShown. set_solver.
Qed.

(** An instance of C5 on the freshly loaded page: the first message about
    a denied permission is passed on, its repetition after other calls is
    dropped. *)
Lemma console_error_suppression_witness :
  let args := [AString "Permission denied: /bookings"] in
  let calls := [ConsoleWarn [AString "common.js slow"];
                EnableProductionLogging;
                ConsoleError [AString "boom"]] in
  (step load (ConsoleError args)).2 = [Original Error args] /\
  (step (run (step load (ConsoleError args)).1 calls).1
     (ConsoleError args)).2 = [].
Proof.
  intros args calls.
  exact (console_error_suppression load args calls eq_refl eq_refl eq_refl).
Defined.

(** C5 as stated fails. After an error that only says that permission was
    denied, the first error that says so about the bookings is dropped: it
    is the first occurrence of this message, the first message with the
    pattern about bookings, and it contains the word Error. *)
Lemma console_error_first_occurrence_dropped :
  let earlier := [AString "Permission denied"] in
  let args := [AString "Error getting bookings: Permission denied"] in
  args <> earlier /\
  includes (message earlier) "Error getting bookings" = false /\
  includes (message args) "Error getting bookings" = true /\
  includes (message args) "Error" = true /\
  (step (run load [ConsoleError earlier]).1 (ConsoleError args)).2 = [].
Proof.
  intros earlier args. repeat split; done.
Qed.

End ConsoleManagerProperties.

(** * Properties of the adaptive performance helper *)

Section TimeoutProperties.

Import AdaptivePerformanceSystem JsNumber.

(** The multipliers as the decimal numbers written in the source. *)
Definition network_factor (s : NetworkSpeed) : Q :=
  match s with
  | fast => 8 # 10
  | normal => 1
  | slow => 2
  end.

Definition device_factor (d : DeviceCapability) : Q :=
  match d with
  | high => 8 # 10
  | medium => 1
  | low => 15 # 10
  end.

(** The base timeout of an operation, when [baseTimeout] is a number: the
    entry of the table, 5000 for a name that reads [undefined]. *)
Definition base_timeout (operation : string) : option Z :=
  match or_5000 (get baseTimeouts operation) with
  | Own x => to_Z x
  | Inherited | Undefined => None
  end.

(** The values [baseTimeout] can take. *)
Lemma baseTimeout_values (operation : string) :
  In (or_5000 (get baseTimeouts operation))
    [Own 8000; Own 5000; Own 15000; Own 45000; Own 300; Own 150; Inherited]%float.
Proof.
  unfold get, baseTimeouts. cbn [own].
  repeat match goal with
  | |- context [String.eqb ?a operation] =>
      destruct (String.eqb a operation);
      [vm_compute; repeat first [left; reflexivity | right]|]
  end.
  destruct (existsb (String.eqb operation) objectPrototype);
    vm_compute; repeat first [left; reflexivity | right].
Qed.

(** The base timeouts of the nine names of the table, of a name that is
    not in it, and of a name the table inherits. *)
Lemma base_timeout_table :
  map base_timeout
    [ "loginCheck"; "userFetch"; "warningPanel"; "autoCancel"; "bookingsLoad";
      "notifications"; "firebaseUser"; "debounce"; "scrollDelay";
      "profileSave"; "toString" ]%string =
    [ Some 8000; Some 8000; Some 5000; Some 5000; Some 15000; Some 5000;
      Some 45000; Some 300; Some 150; Some 5000; None ].
Proof. vm_compute. reflexivity. Qed.

(** A name that is no member of [Object.prototype] has a base timeout. *)
Lemma base_timeout_defined (operation : string) :
  existsb (String.eqb operation) objectPrototype = false ->
  exists base, base_timeout operation = Some base.
Proof.
  intros Hproto. unfold base_timeout, get, baseTimeouts. cbn [own].
  repeat match goal with
  | |- context [String.eqb ?a operation] =>
      destruct (String.eqb a operation); [vm_compute; eauto|]
  end.
  rewrite Hproto. vm_compute. eauto.
Qed.

(** What C1 says holds for the names that have a base timeout, those of
    the table and those that read [undefined]: [getTimeout] returns the
    integer nearest to the product of the base timeout and the two
    multipliers, the product taken over the rationals: the binary64
    product is close enough to round to it. When [baseTimeout] is no
    number (the name of a member of [Object.prototype]) the result is
    NaN. For [bookingsLoad] the base timeout is 15000. *)
Lemma getTimeout_rounded_product (this : t) (operation : string) :
  getTimeout this operation =
    match base_timeout operation with
    | Some base =>
        of_Z (nearest_integer
                (inject_Z base * network_factor (networkSpeed this) *
                 device_factor (deviceCapability this)))
    | None => nan
    end /\
  getTimeout this "bookingsLoad" =
    of_Z (nearest_integer
            (15000 * network_factor (networkSpeed this) *
             device_factor (deviceCapability this))).
Proof.
  split.
  - unfold getTimeout, base_timeout.
    pose proof (baseTimeout_values operation) as Hbase.
    destruct (or_5000 (get baseTimeouts operation)) as [x| |];
      simpl in Hbase;
      repeat (destruct Hbase as [Hbase | Hbase];
              [inversion Hbase; subst; clear Hbase
              |try contradiction]);
      try discriminate;
      destruct this as [[] [] metrics]; vm_compute; reflexivity.
  - destruct this as [[] [] metrics]; vm_compute; reflexivity.
Qed.

(** C1 on the code: [this.baseTimeouts[operation] || 5000] reads the
    table with the operation name as a property key, and the table, a
    plain object, inherits the members of [Object.prototype]. For the
    name [toString] the value read is the inherited function; it is
    truthy, so the default 5000 is not taken, the product is NaN and
    [getTimeout] returns NaN in every state: no integer, where the claim
    gives the rounded product of a base timeout and the multipliers. A
    timer started with this timeout expires at once. *)
Theorem getTimeout_inherited_name (this : t) :
  get baseTimeouts "toString" = Inherited /\
  getTimeout this "toString" = nan /\
  to_Z (getTimeout this "toString") = None /\
  timer_delay (getTimeout this "toString") = 0.
Proof.
  split; [reflexivity|].
  destruct this as [[] [] metrics]; vm_compute; repeat split.
Qed.

End TimeoutProperties.

Section RetryProperties.

Import AdaptivePerformanceSystem JsNumber.

Context {engine : Engine} {W : Type}.
Implicit Types (operation : Operation W) (w : W) (tr : list Event).

(** The calls of the operation and the pauses, in order. *)
Definition timeline tr : list Event :=
  List.filter
    (fun e => match e with Invoke | Sleep _ => true | _ => false end) tr.

Definition invocations tr : nat :=
  length (List.filter (fun e => match e with Invoke => true | _ => false end) tr).

Definition pauses tr : list float :=
  flat_map (fun e => match e with Sleep ms => [ms] | _ => [] end) tr.

(** [n] calls from [attempt] on, a pause after each but the last. *)
Fixpoint schedule (n : nat) (attempt : Z) : list Event :=
  match n with
  | O => []
  | S n' =>
      Invoke ::
      match n' with
      | O => []
      | S _ => Sleep (backoffDelay attempt) :: schedule n' (attempt + 1)
      end
  end.

(** The world after [n] calls of the operation. *)
Fixpoint world_after operation (n : nat) w : W :=
  match n with
  | O => w
  | S n' => world_after operation n' (operation w).2
  end.

(** The delay before rounding, as a real number: [1000 * 1.5^(attempt-1)]. *)
Definition unrounded_delay (attempt : Z) : Q := 1000 * (3 # 2) ^ (attempt - 1).

Lemma pauses_timeline tr : pauses (timeline tr) = pauses tr.
Proof.
  induction tr as [|e tr IH]; [done|].
  destruct e; simpl; rewrite ?IH; reflexivity.
Qed.

Lemma invocations_timeline tr : invocations (timeline tr) = invocations tr.
Proof.
  unfold invocations. induction tr as [|e tr IH]; [done|].
  destruct e; simpl; rewrite ?IH; reflexivity.
Qed.

Lemma schedule_more n attempt :
  schedule (S (S n)) attempt =
    Invoke :: Sleep (backoffDelay attempt) :: schedule (S n) (attempt + 1).
Proof. reflexivity. Qed.

Lemma schedule_invocations n attempt : invocations (schedule n attempt) = n.
Proof.
  revert attempt. induction n as [|n IH]; intros attempt; [done|].
  destruct n as [|n]; [done|].
  rewrite schedule_more. specialize (IH (attempt + 1)).
  unfold invocations in *. cbn [List.filter length]. by rewrite IH.
Qed.

Lemma schedule_pauses n (j : nat) :
  pauses (schedule n (Z.of_nat j)) =
    map (fun i => backoffDelay (Z.of_nat i)) (seq j (n - 1)).
Proof.
  revert j. induction n as [|n IH]; intros j; [done|].
  destruct n as [|n]; [done|].
  rewrite schedule_more. specialize (IH (S j)).
  replace (Z.of_nat (S j)) with (Z.of_nat j + 1) in IH by lia.
  replace (S (S n) - 1)%nat with (S n) by lia.
  replace (S n - 1)%nat with n in IH by lia.
  unfold pauses in *. cbn [flat_map app seq map]. by rewrite IH.
Qed.

Lemma attempts_done fuel operation name maxAttempts attempt lastError w :
  maxAttempts < attempt ->
  attempts fuel operation name maxAttempts attempt lastError w =
    Some (Rejects lastError, w, [gave_up name maxAttempts]).
Proof.
  intros Hlt. destruct fuel; simpl;
    (destruct (attempt <=? maxAttempts) eqn:Hle; [lia|reflexivity]).
Qed.

Lemma attempts_step fuel operation name maxAttempts attempt lastError w :
  attempt <= maxAttempts ->
  attempts (S fuel) operation name maxAttempts attempt lastError w =
    let start := [executing name attempt maxAttempts; Invoke] in
    match awaited (operation w).1 with
    | None => Some (Hangs, (operation w).2, start)
    | Some (Fulfilled result) =>
        Some (Resolves result, (operation w).2,
              start ++ [succeeded name attempt])
    | Some (Rejected error) =>
        match get_message error with
        | inr typeError => Some (Rejects typeError, (operation w).2, start)
        | inl message =>
            let pause :=
              if attempt <? maxAttempts then
                [retrying name (backoffDelay attempt);
                 Sleep (backoffDelay attempt)]
              else [] in
            match attempts fuel operation name maxAttempts (attempt + 1)
                    error (operation w).2 with
            | Some (r, w2, later) =>
                Some (r, w2,
                      start ++ [failed name attempt message] ++ pause ++ later)
            | None => None
            end
        end
    end.
Proof.
  intros Hle. simpl.
  destruct (attempt <=? maxAttempts) eqn:E; [|lia].
  by destruct (operation w) as [c w1].
Qed.

(** The loop never runs out of the fuel [executeWithRetry] gives it. *)
Lemma attempts_total fuel operation name maxAttempts attempt lastError w :
  maxAttempts - attempt + 1 <= Z.of_nat fuel ->
  is_Some (attempts fuel operation name maxAttempts attempt lastError w).
Proof.
  revert attempt lastError w.
  induction fuel as [|fuel IH]; intros attempt lastError w Hfuel.
  - rewrite attempts_done by lia. eauto.
  - destruct (Z_lt_le_dec maxAttempts attempt) as [Hlt|Hle].
    + rewrite attempts_done by lia. eauto.
    + rewrite attempts_step by lia. cbn zeta.
      destruct (awaited (operation w).1) as [[result|error]|]; eauto.
      destruct (get_message error) as [message|typeError]; eauto.
      destruct (IH (attempt + 1) error (operation w).2) as [[[r w2] later] ->];
        [lia|eauto].
Qed.

Lemma executeWithRetry_total operation name maxAttempts w :
  is_Some (executeWithRetry operation name maxAttempts w).
Proof. unfold executeWithRetry. apply attempts_total. lia. Qed.


(** An operation that fails on every call, with errors whose [message]
    can be read. *)
Definition always_fails operation : Prop :=
  forall w, exists e m,
    awaited (operation w).1 = Some (Rejected e) /\ get_message e = inl m.

Lemma attempts_always_failing operation name maxAttempts :
  always_fails operation ->
  forall (n : nat) attempt lastError w,
    maxAttempts - attempt + 1 = Z.of_nat n -> (1 <= n)%nat ->
    exists e tr,
      attempts n operation name maxAttempts attempt lastError w =
        Some (Rejects e, world_after operation n w, tr) /\
      awaited (operation (world_after operation (n - 1) w)).1 =
        Some (Rejected e) /\
      invocations tr = n /\
      timeline tr = schedule n attempt.
Proof.
  intros Hfails. induction n as [|n IH]; intros attempt lastError w Hn Hpos;
    [lia|].
  rewrite attempts_step by lia. cbn zeta.
  destruct (Hfails w) as (e & m & Hcall & Hmsg). rewrite Hcall, Hmsg.
  destruct n as [|n].
  - assert (attempt = maxAttempts) as -> by lia.
    rewrite attempts_done by lia. rewrite Z.ltb_irrefl.
    exists e. eexists. split; [reflexivity|]. by repeat split.
  - destruct (IH (attempt + 1) e (operation w).2) as (e' & tr & Hrun & Hlast & Hcount & Htl);
      [lia|lia|].
    rewrite Hrun. destruct (attempt <? maxAttempts) eqn:E; [|lia].
    exists e'. eexists. split; [reflexivity|].
    split; [|split].
    + replace (S (S n) - 1)%nat with (S n) by lia.
      replace (S n - 1)%nat with n in Hlast by lia. exact Hlast.
    + unfold invocations in *. cbn -[schedule]. by rewrite Hcount.
    + unfold timeline in *. cbn -[schedule]. by rewrite Htl.
Qed.

(** What C2 says holds for the errors whose [message] can be read: the
    operation is called [N] times, with a pause between two calls, and the
    error of the last call is the one the caller gets. *)
Lemma executeWithRetry_exhausts_attempts operation name (N : Z) w :
  always_fails operation ->
  1 <= N ->
  exists e tr,
    executeWithRetry operation name (Some N) w =
      Some (Rejects e, world_after operation (Z.to_nat N) w, tr) /\
    awaited (operation (world_after operation (Z.to_nat N - 1) w)).1 =
      Some (Rejected e) /\
    invocations tr = Z.to_nat N /\
    timeline tr = schedule (Z.to_nat N) 1.
Proof.
  intros Hfails HN. unfold executeWithRetry. simpl default.
  apply attempts_always_failing; [done|lia|lia].
Qed.

(** What C3 says holds for the errors whose [message] can be read. *)
Lemma executeWithRetry_third_call_succeeds operation name w e1 e2 m1 m2 v :
  awaited (operation w).1 = Some (Rejected e1) ->
  get_message e1 = inl m1 ->
  awaited (operation (world_after operation 1 w)).1 = Some (Rejected e2) ->
  get_message e2 = inl m2 ->
  awaited (operation (world_after operation 2 w)).1 = Some (Fulfilled v) ->
  exists tr,
    executeWithRetry operation name (Some 3) w =
      Some (Resolves v, world_after operation 3 w, tr) /\
    invocations tr = 3%nat /\
    pauses tr = [backoffDelay 1; backoffDelay 2].
Proof.
  intros H1 Hm1 H2 Hm2 H3. unfold executeWithRetry. simpl default.
  change (Z.to_nat 3) with 3%nat. simpl world_after in *.
  rewrite attempts_step by lia. cbn zeta. rewrite H1, Hm1.
  rewrite attempts_step by lia. cbn zeta. rewrite H2, Hm2.
  rewrite attempts_step by lia. cbn zeta. rewrite H3.
  eexists. split; [reflexivity|]. split; reflexivity.
Qed.

(** C10. With [maxAttempts <= 0] the loop body never runs: the operation
    is not called (the world is untouched and the only event is the final
    console.error), and the promise is rejected with [undefined], the
    value [lastError] was declared with. *)
Theorem executeWithRetry_no_attempts operation name (maxAttempts : Z) w :
  maxAttempts <= 0 ->
  executeWithRetry operation name (Some maxAttempts) w =
    Some (Rejects JUndefined, w,
          [gave_up (default "operation"%string name) maxAttempts]).
Proof.
  intros Hmax. unfold executeWithRetry. simpl default.
  apply attempts_done. lia.
Qed.

Lemma unrounded_delay_grows (k : positive) :
  unrounded_delay (Z.pos k + 1) == (3 # 2) * unrounded_delay (Z.pos k).
Proof.
  unfold unrounded_delay.
  replace (Z.pos k + 1 - 1) with (1 + (Z.pos k - 1)) by lia.
  rewrite Qpower_plus by discriminate.
  change (((3 # 2) ^ 1)%Q) with (3 # 2). ring.
Qed.

(** The delay of an attempt when the power is exact. *)
Definition exact_delay (attempt : Z) : float :=
  Math_round
    (1000 * (of_Z (3 ^ (attempt - 1)) / of_Z (2 ^ (attempt - 1)))).

(** Up to attempt 34 the power of 1.5 is a binary64 value. On an engine
    that returns it, the product with 1000 rounds to the integer nearest
    to the real delay, and the timer runs for that many milliseconds. *)
Lemma backoffDelay_exact (attempt : Z) :
  exact_powers engine ->
  1 <= attempt <= 34 ->
  to_Z (backoffDelay attempt) =
    Some (nearest_integer (unrounded_delay attempt)) /\
  timer_delay (backoffDelay attempt) =
    nearest_integer (unrounded_delay attempt).
Proof.
  intros Hexact Hrange. unfold backoffDelay, retryBackoffMultiplier.
  rewrite (Hexact (attempt - 1)) by lia. fold (exact_delay attempt).
  assert (Hall : forallb
            (fun k => match to_Z (exact_delay k) with
                      | Some z =>
                          (z =? nearest_integer (unrounded_delay k)) &&
                          (timer_delay (exact_delay k) =? z)
                      | None => false
                      end) (map Z.of_nat (seq 1 34)) = true)
    by (vm_compute; reflexivity).
  rewrite forallb_forall in Hall.
  specialize (Hall attempt).
  assert (Hin : In attempt (map Z.of_nat (seq 1 34))).
  { apply in_map_iff. exists (Z.to_nat attempt). split; [lia|].
    apply in_seq. lia. }
  specialize (Hall Hin).
  destruct (to_Z (exact_delay attempt)) as [z|]; [|discriminate].
  apply andb_true_iff in Hall as [Hz Htimer].
  apply Z.eqb_eq in Hz, Htimer. split; congruence.
Qed.


End RetryProperties.

(** ** Runs on concrete operations

    The world of these operations is the number of calls made so far. *)

Section RetryExamples.

Import AdaptivePerformanceSystem JsNumber.

Context {engine : Engine}.

(** An engine for the instances below. Its [Math.pow] is correctly
    rounded for the exponents that are natural numbers, the only ones the
    retry loop passes; on other exponents it stands for no engine. *)
Definition correctly_rounded : Engine :=
  {| Math_pow b e :=
       match to_Z e with
       | Some n => if 0 <=? n then nearest_power b (Z.to_N n) else nan
       | None => nan
       end |}.

Lemma correctly_rounded_exact : exact_powers correctly_rounded.
Proof.
  intros n Hn.
  assert (Hin : In n (map Z.of_nat (seq 0 34))).
  { apply in_map_iff. exists (Z.to_nat n). split; [lia|].
    apply in_seq. lia. }
  simpl in Hin.
  repeat (destruct Hin as [<- | Hin]; [vm_compute; reflexivity|]).
  contradiction.
Qed.

(** [() => Promise.reject()]: every call returns a promise rejected with
    [undefined]. *)
Definition rejects_undefined : Operation nat :=
  fun calls => (Returns (Settles 10 (Rejected JUndefined)), S calls).

(** Two rejections with [undefined], then a fulfilled promise. *)
Definition third_call_succeeds : Operation nat :=
  fun calls =>
    (if (calls <? 2)%nat then Returns (Settles 10 (Rejected JUndefined))
     else Returns (Settles 10 (Fulfilled (JString "ok"))),
     S calls).

(** C2 on the code: the catch block reads [error.message] for its
    warning; on an operation that rejects with [undefined] the read
    throws, so with [maxAttempts = 2] the operation is called once and
    the caller gets the TypeError, not the error of a second call. *)
Theorem executeWithRetry_undefined_rejection :
  executeWithRetry rejects_undefined (Some "load"%string) (Some 2) 0%nat =
    Some (Rejects (cannot_read "undefined" "message"), 1%nat,
          [executing "load" 1 2; Invoke]) /\
  invocations [executing "load" 1 2; Invoke] = 1%nat.
Proof. split; reflexivity. Qed.

(** C3 on the code: when the first two calls reject with [undefined],
    the run ends in the catch block of the first one: one call, no pause,
    and the promise is rejected with the TypeError. *)
Theorem executeWithRetry_undefined_then_success :
  executeWithRetry third_call_succeeds None (Some 3) 0%nat =
    Some (Rejects (cannot_read "undefined" "message"), 1%nat,
          [executing "operation" 1 3; Invoke]) /\
  invocations [executing "operation" 1 3; Invoke] = 1%nat /\
  pauses [executing "operation" 1 3; Invoke] = [].
Proof. repeat split; reflexivity. Qed.

(** An instance of C10 with [maxAttempts = 0]. *)
Lemma executeWithRetry_no_attempts_witness :
  executeWithRetry (engine := correctly_rounded) third_call_succeeds
    (Some "load"%string) (Some 0) 0%nat =
    Some (Rejects JUndefined, 0%nat, [gave_up "load" 0]).
Proof.
  apply (executeWithRetry_no_attempts (engine := correctly_rounded)
           third_call_succeeds (Some "load"%string) 0 0%nat).
  lia.
Defined.





End RetryExamples.

Section DetectionProperties.

Import AdaptivePerformanceSystem JsNumber.

(** [navigator.connection || navigator.mozConnection ||
    navigator.webkitConnection] *)
Definition connection_api (nav : Navigator) : option Connection :=
  or_else (connection nav) (or_else (mozConnection nav) (webkitConnection nav)).

(** C4. With a connection object, effective type 4g is classified as fast
    and 2g as slow. Without one, the page load time read from
    [performance.timing] decides: above 3000 ms slow, above 1500 ms
    normal, otherwise fast. *)
Theorem detectNetworkSpeed_classification (env : Browser) (nav : Navigator)
    (this : t) :
  navigator env = Some nav ->
  let speed := networkSpeed (detectNetworkSpeed env this) in
  (forall c, connection_api nav = Some c ->
     (effectiveType c = Some "4g"%string -> speed = fast) /\
     (effectiveType c = Some "2g"%string -> speed = slow)) /\
  (forall perf tm,
     connection_api nav = None ->
     performance env = Some perf ->
     timing perf = Some tm ->
     let pageLoadTime := loadEventEnd tm - navigationStart tm in
     (3000 < pageLoadTime -> speed = slow) /\
     (1500 < pageLoadTime <= 3000 -> speed = normal) /\
     (pageLoadTime <= 1500 -> speed = fast)).
Proof.
  intros Hnav speed. subst speed. unfold detectNetworkSpeed, connection_api.
  rewrite Hnav. split.
  - intros c ->. split; intros ->; reflexivity.
  - intros perf tm -> -> ->. cbn zeta. unfold classify_pageLoadTime.
    repeat split; intros Hload.
    + destruct (3000 <? _) eqn:E; [reflexivity|lia].
    + destruct (3000 <? _) eqn:E; [lia|].
      destruct (1500 <? _) eqn:E'; [reflexivity|lia].
    + destruct (3000 <? _) eqn:E; [lia|].
      destruct (1500 <? _) eqn:E'; [lia|reflexivity].
Qed.

(** Without a connection object and without [performance.timing] the
    field keeps its value; without [navigator] it is set to normal. *)
Lemma detectNetworkSpeed_no_signal (env : Browser) (this : t) :
  match navigator env with
  | None => networkSpeed (detectNetworkSpeed env this) = normal
  | Some nav =>
      connection_api nav = None ->
      (forall perf, performance env = Some perf -> timing perf = None) ->
      detectNetworkSpeed env this = this
  end.
Proof.
  unfold detectNetworkSpeed, connection_api.
  destruct (navigator env) as [nav|]; [|reflexivity].
  intros -> Hperf. destruct (performance env) as [perf|]; [|reflexivity].
  by rewrite (Hperf perf eq_refl).
Qed.

Definition no_timing : Performance := {| timing := None; memory := None |}.

Definition desktop (c : option Connection) : Navigator :=
  {| connection := c; mozConnection := None; webkitConnection := None;
     hardwareConcurrency := Some 8%float; deviceMemory := Some 8%float;
     userAgent := "Mozilla/5.0 (X11; Linux x86_64)" |}.

Definition browser_with (c : option Connection) (t : option Timing) : Browser :=
  {| navigator := Some (desktop c);
     performance := Some {| timing := t; memory := None |} |}.

Definition reports (effectiveType : string) : option Connection :=
  Some {| effectiveType := Some effectiveType; downlink := Some 10%float |}.

Definition fresh : t :=
  {| networkSpeed := normal; deviceCapability := medium;
     performanceMetrics := [] |}.

(** Instances of C4: a 4g connection, a 2g connection, and a browser
    without the connection API whose page took 3.2 s to load. *)
Lemma detectNetworkSpeed_classification_witness :
  networkSpeed (detectNetworkSpeed (browser_with (reports "4g") None) fresh)
    = fast /\
  networkSpeed (detectNetworkSpeed (browser_with (reports "2g") None) fresh)
    = slow /\
  networkSpeed
    (detectNetworkSpeed
       (browser_with None
          (Some {| loadEventEnd := 1700000003200;
                   navigationStart := 1700000000000 |}))
       fresh) = slow.
Proof.
  split; [|split].
  - exact (proj1 (proj1 (detectNetworkSpeed_classification
             (browser_with (reports "4g") None) _ fresh eq_refl) _ eq_refl)
             eq_refl).
  - exact (proj2 (proj1 (detectNetworkSpeed_classification
             (browser_with (reports "2g") None) _ fresh eq_refl) _ eq_refl)
             eq_refl).
  - refine (proj1 (proj2 (detectNetworkSpeed_classification
             (browser_with None
                (Some {| loadEventEnd := 1700000003200;
                         navigationStart := 1700000000000 |}))
             _ fresh eq_refl) _ _ eq_refl eq_refl eq_refl) _).
    simpl. lia.
Defined.

End DetectionProperties.

Section MetricsProperties.

Import AdaptivePerformanceSystem JsNumber.

Definition bounded (this : t) : Prop :=
  (length (performanceMetrics this) <= maxMetricsHistory)%nat.

(** Case analysis on whatever the goal branches on. *)
Ltac branches :=
  repeat match goal with
  | |- context [match ?x with _ => _ end] => destruct x
  end.

Lemma detectNetworkSpeed_metrics env this :
  performanceMetrics (detectNetworkSpeed env this) = performanceMetrics this.
Proof. unfold detectNetworkSpeed. branches; reflexivity. Qed.

Lemma detectDeviceCapability_metrics env this :
  performanceMetrics (detectDeviceCapability env this) = performanceMetrics this.
Proof. unfold detectDeviceCapability. branches; reflexivity. Qed.

Lemma memoryCheck_metrics env this :
  performanceMetrics (memoryCheck env this) = performanceMetrics this.
Proof.
  unfold memoryCheck.
  destruct (performance env) as [perf|]; [|reflexivity].
  destruct (memory perf) as [mem|]; [|reflexivity].
  destruct (_ <? _)%float; [reflexivity|].
  destruct (_ <? _)%float; [|reflexivity].
  destruct (deviceCapability this); try reflexivity.
  apply detectDeviceCapability_metrics.
Qed.

Lemma init_metrics env this :
  performanceMetrics (init env this) = performanceMetrics this.
Proof.
  unfold init.
  by rewrite detectDeviceCapability_metrics, detectNetworkSpeed_metrics.
Qed.

(** [recordMetric] appends the entry and, on a full history, drops the
    oldest one. *)
Lemma recordMetric_metrics now metric this :
  bounded this ->
  performanceMetrics (recordMetric now metric this) =
    (if (length (performanceMetrics this) <? maxMetricsHistory)%nat
     then performanceMetrics this
     else tl (performanceMetrics this)) ++
    [set_field metric "timestamp" (JNumber (of_Z now))].
Proof.
  unfold bounded, recordMetric, maxMetricsHistory. intros Hlen.
  cbn [performanceMetrics set_performanceMetrics].
  rewrite length_app. cbn [length].
  destruct (100 <? _)%nat eqn:Hfull;
    destruct (_ <? 100)%nat eqn:Hroom; try reflexivity.
  - apply Nat.ltb_lt in Hfull, Hroom. lia.
  - destruct (performanceMetrics this); [|reflexivity].
    apply Nat.ltb_lt in Hfull. simpl in Hfull. lia.
  - apply Nat.ltb_ge in Hfull, Hroom. lia.
Qed.

Lemma recordMetric_bounded now metric this :
  bounded this -> bounded (recordMetric now metric this).
Proof.
  intros Hlen. unfold bounded. rewrite recordMetric_metrics by done.
  unfold bounded, maxMetricsHistory in *. rewrite length_app. cbn [length].
  destruct (_ <? 100)%nat eqn:Hroom.
  - apply Nat.ltb_lt in Hroom. lia.
  - destruct (performanceMetrics this); simpl in *; lia.
Qed.

Lemma resourceObserver_bounded entries this :
  bounded this -> bounded (resourceObserver entries this).
Proof.
  revert this. induction entries as [|[entry now] rest IH]; intros this Hlen;
    [done|].
  simpl. apply IH. by apply recordMetric_bounded.
Qed.

Lemma step_bounded this c : bounded this -> bounded (step this c).
Proof.
  intros Hlen. destruct c; simpl; unfold bounded in *.
  - by rewrite detectNetworkSpeed_metrics.
  - by rewrite detectDeviceCapability_metrics.
  - by apply recordMetric_bounded.
  - by apply resourceObserver_bounded.
  - by rewrite memoryCheck_metrics.
  - unfold reset. rewrite init_metrics. simpl. lia.
Qed.

Lemma reachable_bounded this : reachable this -> bounded this.
Proof.
  induction 1 as [env|this c _ IH].
  - unfold bounded, constructor. rewrite init_metrics. simpl. lia.
  - by apply step_bounded.
Qed.

(** C9. In every state an instance can reach the metrics history holds at
    most [maxMetricsHistory] = 100 entries. [recordMetric] appends the
    metric with its timestamp, after dropping the oldest entry when the
    history is full, and the bound holds again. *)
Theorem metrics_history_bounded (this : t) :
  reachable this ->
  maxMetricsHistory = 100%nat /\
  (length (performanceMetrics this) <= maxMetricsHistory)%nat /\
  forall now metric,
    performanceMetrics (recordMetric now metric this) =
      (if (length (performanceMetrics this) <? maxMetricsHistory)%nat
       then performanceMetrics this
       else tl (performanceMetrics this)) ++
      [set_field metric "timestamp" (JNumber (of_Z now))] /\
    (length (performanceMetrics (recordMetric now metric this))
       <= maxMetricsHistory)%nat.
Proof.
  intros Hreach. pose proof (reachable_bounded this Hreach) as Hlen.
  split; [reflexivity|]. split; [exact Hlen|].
  intros now metric. split.
  - by apply recordMetric_metrics.
  - by apply recordMetric_bounded.
Qed.

Definition script : ResourceEntry :=
  {| entry_name := "https://example.org/app.js";
     entry_duration := 12.5;
     entry_transferSize := Some 2048%float |}.

(** An instance of C9: the state after the observer has reported 150
    resources holds 100 entries, and keeps 100 after one more metric. *)
Lemma metrics_history_bounded_witness :
  let full :=
    step (constructor (browser_with None None))
      (ResourceObserver (repeat (script, 1700000000000) 150)) in
  (length (performanceMetrics full) <= 100)%nat /\
  (length (performanceMetrics (recordMetric 1700000000001 [] full)) <= 100)%nat.
Proof.
  intros full.
  destruct (metrics_history_bounded full
              (reachable_step _ _ (reachable_constructor _)))
    as (_ & Hlen & Hrecord).
  split; [exact Hlen|].
  exact (proj2 (Hrecord 1700000000001 [])).
Defined.

End MetricsProperties.

Section RaceProperties.

Import AdaptivePerformanceSystem JsNumber.

Context {W : Type}.

(** C7. When the call of the operation returns a promise,
    [executeWithTimeout] starts a timer of [getTimeout(operationName)]
    and returns the race of the two: a promise of the operation that
    settles before the timer expires decides the result, with its value
    or its error; when the timer expires first, or the promise never
    settles, the result is a rejection with the timeout error. *)
Theorem executeWithTimeout_race (this : t) (operation : Operation W)
    (operationName : string) (w w1 : W) (p : Promise) :
  operation w = (Returns p, w1) ->
  let timeout := getTimeout this operationName in
  let expiry :=
    Settles (timer_delay timeout)
      (Rejected
         (JError (operationName ++ " timeout after " ++ toString timeout ++
                  "ms")%string)) in
  let '(result, w', events) :=
    executeWithTimeout this operation operationName w in
  events = [Invoke; StartTimer timeout] /\
  w' = w1 /\
  (forall t how,
     p = Settles t how -> t < timer_delay timeout -> result = Settles t how) /\
  (forall t how,
     p = Settles t how -> timer_delay timeout < t -> result = expiry) /\
  (p = Never -> result = expiry).
Proof.
  intros Hcall timeout expiry. unfold executeWithTimeout. rewrite Hcall.
  fold timeout. split; [reflexivity|]. split; [reflexivity|].
  unfold Promise_race. cbn [fold_right]. repeat split.
  - intros t how -> Hlt. simpl.
    destruct (t <=? timer_delay timeout) eqn:E; [reflexivity|lia].
  - intros t how -> Hlt. simpl.
    destruct (t <=? timer_delay timeout) eqn:E; [lia|reflexivity].
  - intros ->. reflexivity.
Qed.

(** A call that throws rejects the returned promise at once; no timer is
    started. *)
Lemma executeWithTimeout_throws (this : t) (operation : Operation W)
    (operationName : string) (w w1 : W) (e : JsValue) :
  operation w = (Throws e, w1) ->
  executeWithTimeout this operation operationName w =
    (Settles 0 (Rejected e), w1, [Invoke]).
Proof. intros Hcall. unfold executeWithTimeout. by rewrite Hcall. Qed.

End RaceProperties.

Section RaceExamples.

Import AdaptivePerformanceSystem JsNumber.

(** A request that is answered after 200 ms, and one that never is. *)
Definition answered : Operation nat :=
  fun calls => (Returns (Settles 200 (Fulfilled (JString "bookings"))), S calls).

Definition unanswered : Operation nat :=
  fun calls => (Returns Never, S calls).

(** Instances of C7 on a slow network and a low-end device, where the
    timeout of [bookingsLoad] is 45000 ms. *)
Lemma executeWithTimeout_race_witness :
  let this := {| networkSpeed := slow; deviceCapability := low;
                 performanceMetrics := [] |} in
  (executeWithTimeout this answered "bookingsLoad" 0%nat).1.1 =
    Settles 200 (Fulfilled (JString "bookings")) /\
  (executeWithTimeout this unanswered "bookingsLoad" 0%nat).1.1 =
    Settles 45000 (Rejected (JError "bookingsLoad timeout after 45000ms")).
Proof.
  intros this. split.
  - pose proof (executeWithTimeout_race this answered "bookingsLoad"
                  0%nat 1%nat _ eq_refl) as H.
    cbv zeta in H.
    destruct (executeWithTimeout this answered "bookingsLoad" 0%nat)
      as [[result w'] events].
    destruct H as (_ & _ & Hfirst & _).
    apply (Hfirst 200 _ eq_refl). vm_compute. reflexivity.
  - pose proof (executeWithTimeout_race this unanswered "bookingsLoad"
                  0%nat 1%nat _ eq_refl) as H.
    cbv zeta in H.
    destruct (executeWithTimeout this unanswered "bookingsLoad" 0%nat)
      as [[result w'] events].
    destruct H as (_ & _ & _ & _ & Hnever).
    exact (Hnever eq_refl).
Defined.

End RaceExamples.


(** * Further properties of the console manager *)

Section TrackingProperties.

Import ConsoleManager.

(** The keys the two overrides can record with the constructor's patterns. *)
Definition errorKeys : gset string := list_to_set (errorKey <$> defaultPatterns).
Definition warnKeys : gset string := list_to_set (warnKey <$> defaultPatterns).

(** The calls that clear recorded keys or the pattern list. *)
Definition clears_tracking (c : Call) : bool :=
  match c with
  | ResetConsoleTracking | EnableVerboseLogging => true
  | _ => false
  end.

Definition is_init (c : Call) : bool :=
  match c with
  | Init => true
  | _ => false
  end.

Definition is_production (c : Call) : bool :=
  match c with
  | EnableProductionLogging => true
  | _ => false
  end.

Lemma scan_adds_keys key patterns msg (seen : gset string) :
  (scan key patterns msg seen).1 ⊆ seen ∪ list_to_set (key <$> patterns).
Proof.
  revert seen. induction patterns as [|p rest IH]; intros seen; simpl.
  - set_solver.
  - destruct (includes msg p).
    + case_bool_decide; simpl; [set_solver|].
      etrans; [apply IH|]. set_solver.
    + etrans; [apply IH|]. set_solver.
Qed.

(** Keys that belong to no pattern do not change what the loop does. *)
Lemma hit_foreign_keys key patterns msg (seen other : gset string) :
  other ## list_to_set (key <$> patterns) ->
  hit key patterns msg (seen ∪ other) = hit key patterns msg seen.
Proof.
  induction patterns as [|p rest IH]; intros Hdisj; [done|].
  simpl in *. rewrite IH by set_solver.
  f_equal. f_equal. apply bool_decide_ext. set_solver.
Qed.

Lemma hit_same_keys key patterns msg (seen seen' : gset string) :
  seen ∩ list_to_set (key <$> patterns) = seen' ∩ list_to_set (key <$> patterns) ->
  hit key patterns msg seen = hit key patterns msg seen'.
Proof.
  induction patterns as [|p rest IH]; intros Hsame; [done|].
  simpl in *. rewrite IH by set_solver.
  f_equal. f_equal. apply bool_decide_ext. set_solver.
Qed.

Lemma errorKeys_warnKeys_disjoint : errorKeys ## warnKeys.
Proof. apply (bool_decide_unpack _). by vm_compute. Qed.

Lemma size_errorKeys_warnKeys : size (errorKeys ∪ warnKeys) = 24%nat.
Proof. by vm_compute. Qed.

(** What holds of the manager on every page: the pattern list is the
    constructor's or empty, and only keys of its patterns are recorded. *)
Definition tracked (this : t) : Prop :=
  (suppressPatterns this = defaultPatterns \/ suppressPatterns this = []) /\
  suppressedErrors this ⊆ errorKeys ∪ warnKeys.

Lemma override_tracked level key this args :
  list_to_set (key <$> defaultPatterns) ⊆ errorKeys ∪ warnKeys ->
  tracked this -> tracked (override level key this args).1.
Proof.
  intros Hkeys [Hpat Hsub]. unfold tracked.
  destruct (override_fields level key this args) as [-> ->].
  split; [done|].
  etrans; [apply scan_adds_keys|].
  destruct Hpat as [-> | ->].
  - by apply union_least.
  - apply union_least; [done|apply empty_subseteq].
Qed.

Lemma step_tracked p c : tracked (manager p) -> tracked (manager (step p c).1).
Proof.
  intros Ht. destruct c; simpl; try done.
  - destruct (installed p); [|done]. simpl.
    apply override_tracked; [apply union_subseteq_l|done].
  - destruct (installed p); [|done]. simpl.
    apply override_tracked; [apply union_subseteq_r|done].
  - destruct Ht as [Hpat _]. split; [done|]. apply empty_subseteq.
  - split; [by right|]. apply empty_subseteq.
  - unfold enableDebugCategory. by destruct (set_category _ _).
Qed.

Lemma run_tracked calls p :
  tracked (manager p) -> tracked (manager (run p calls).1).
Proof.
  revert p. induction calls as [|c rest IH]; intros p Ht; [done|].
  simpl. pose proof (step_tracked p c Ht) as H1.
  destruct (step p c) as [p1 out1]. specialize (IH p1 H1).
  by destruct (run p1 rest).
Qed.

Lemma load_tracked : tracked (manager load).
Proof. split; [by left|]. apply empty_subseteq. Qed.

Lemma tracked_NoDup (key : string -> string) this :
  NoDup (key <$> defaultPatterns) -> tracked this ->
  NoDup (key <$> suppressPatterns this).
Proof. intros Hnd [[-> | ->] _]; [done|apply NoDup_nil_2]. Qed.

(** X1. Whatever has been called since the page was loaded, the count
    reported by [getErrorStats] is at most 24: one key per pattern for
    errors and one for warnings. *)
Theorem getErrorStats_bounded (calls : list Call) :
  (getErrorStats (manager (run load calls).1) <= 24)%nat.
Proof.
  destruct (run_tracked calls load load_tracked) as [_ Hsub].
  unfold getErrorStats. rewrite <- size_errorKeys_warnKeys.
  by apply subseteq_size.
Qed.

(** X2. After [reset], on any page a session can reach, nothing is
    recorded: the count is 0 and the next error and the next warning are
    handed to the original functions, whatever they say. *)
Theorem reset_rearms (calls : list Call) (args : list Arg) :
  let p := (step (run load calls).1 ResetConsoleTracking).1 in
  getErrorStats (manager p) = 0%nat /\
  (step p (ConsoleError args)).2 = [Original Error args] /\
  (step p (ConsoleWarn args)).2 = [Original Warn args].
Proof.
  intros p.
  pose proof (run_tracked calls load load_tracked) as Ht.
  assert (Hp : tracked (manager p)) by (by apply step_tracked).
  assert (Hempty : suppressedErrors (manager p) = ∅) by done.
  split; [unfold getErrorStats; by rewrite Hempty|].
  assert (Hhit : forall key msg,
            hit key (suppressPatterns (manager p)) msg
              (suppressedErrors (manager p)) = false).
  { intros key msg. rewrite Hempty. unfold hit.
    induction (suppressPatterns (manager p)) as [|q rest IH]; [done|].
    simpl. rewrite IH. rewrite bool_decide_eq_false_2 by set_solver.
    by rewrite andb_false_r. }
  clearbody p. simpl. destruct (installed p); [|done].
  unfold with_manager, console_error, console_warn. cbn [fst snd].
  rewrite !override_output, !Hhit; [done| |].
  - by apply tracked_NoDup; [apply defaultPatterns_warnKeys|].
  - by apply tracked_NoDup; [apply defaultPatterns_errorKeys|].
Qed.

End TrackingProperties.

Section OverrideProperties.

Import ConsoleManager.

(** A warning with a pattern whose key is recorded. *)
Definition already_warned (this : t) (msg : string) : bool :=
  hit warnKey (suppressPatterns this) msg (suppressedErrors this).

(** Without a reset and without verbose mode the pattern list stays and no
    recorded key is lost, whether the overrides are installed or not. *)
Lemma step_keeps_keys p c :
  clears_tracking c = false ->
  suppressPatterns (manager (step p c).1) = suppressPatterns (manager p) /\
  suppressedErrors (manager p) ⊆ suppressedErrors (manager (step p c).1).
Proof.
  intros Hc. destruct c; try discriminate; simpl; try done.
  - destruct (installed p); [|done]. unfold console_error, override. simpl.
    pose proof (scan_grows errorKey (suppressPatterns (manager p))
                  (message args) (suppressedErrors (manager p))).
    by destruct (scan errorKey _ _ _).
  - destruct (installed p); [|done]. unfold console_warn, override. simpl.
    pose proof (scan_grows warnKey (suppressPatterns (manager p))
                  (message args) (suppressedErrors (manager p))).
    by destruct (scan warnKey _ _ _).
  - unfold enableDebugCategory. by destruct (set_category _ _).
Qed.

Lemma run_keeps_keys calls p :
  forallb (fun c => negb (clears_tracking c)) calls = true ->
  suppressPatterns (manager (run p calls).1) = suppressPatterns (manager p) /\
  suppressedErrors (manager p) ⊆ suppressedErrors (manager (run p calls).1).
Proof.
  revert p. induction calls as [|c rest IH]; intros p Hcalls; [done|].
  simpl in Hcalls. apply andb_true_iff in Hcalls as [Hc Hrest].
  apply negb_true_iff in Hc.
  destruct (step_keeps_keys p c Hc) as (Hpat & Hsub).
  simpl. destruct (step p c) as [p1 out1]. simpl in *.
  destruct (IH p1 Hrest) as (Hpat' & Hsub').
  destruct (run p1 rest) as [p2 out2]. simpl in *.
  split; [congruence|]. set_solver.
Qed.

(** What one of the two overrides does to a message and to its later
    occurrence, for the key function [key] of the override. *)
Lemma override_then_again level key (this later : t) args :
  NoDup (key <$> defaultPatterns) ->
  suppressPatterns this = defaultPatterns ->
  suppressPatterns later = defaultPatterns ->
  suppressedErrors (override level key this args).1 ⊆ suppressedErrors later ->
  (override level key this args).2 =
    (if hit key defaultPatterns (message args) (suppressedErrors this)
     then [] else [Original level args]) /\
  (override level key later args).2 =
    (if noisy defaultPatterns (message args) then []
     else [Original level args]).
Proof.
  intros Hnd Hpat Hpat' Hsub.
  rewrite !override_output by (rewrite ?Hpat, ?Hpat'; done).
  rewrite Hpat, Hpat'. split; [done|].
  destruct (noisy defaultPatterns (message args)) eqn:Hnoisy.
  - rewrite (hit_mono key defaultPatterns (message args) _ _ Hsub); [done|].
    rewrite (proj2 (override_fields level key this args)), Hpat.
    by apply scan_records.
  - replace (hit key defaultPatterns (message args) _) with false; [done|].
    symmetry. apply not_true_is_false. intros Hhit.
    unfold hit in Hhit. apply existsb_exists in Hhit as (q & Hq & Hq').
    apply andb_true_iff in Hq' as [Hinc _].
    assert (noisy defaultPatterns (message args) = true); [|congruence].
    apply existsb_exists. eauto.
Qed.

Lemma step_ConsoleWarn p args :
  installed p = true ->
  step p (ConsoleWarn args) = with_manager p (console_warn (manager p) args).
Proof. intros Hi. simpl. by rewrite Hi. Qed.

Lemma step_ConsoleError p args :
  installed p = true ->
  step p (ConsoleError args) = with_manager p (console_error (manager p) args).
Proof. intros Hi. simpl. by rewrite Hi. Qed.

(** X3. With the overrides installed and the constructor's patterns in
    place, [console.warn] hands a warning to the original function,
    arguments unchanged, unless a pattern it contains is already recorded
    for warnings. Once a warning that contains a pattern has been handled,
    a later occurrence of it is dropped, unless the tracking was reset or
    verbose mode enabled in between; a warning without a pattern is never
    dropped. The overrides may be removed in between if they are back in
    the end. *)
Theorem console_warn_suppression (p : Page) (args : list Arg)
    (calls : list Call) :
  installed p = true ->
  suppressPatterns (manager p) = defaultPatterns ->
  forallb (fun c => negb (clears_tracking c)) calls = true ->
  installed (run (step p (ConsoleWarn args)).1 calls).1 = true ->
  let first := step p (ConsoleWarn args) in
  let again := step (run first.1 calls).1 (ConsoleWarn args) in
  first.2 =
    (if already_warned (manager p) (message args) then []
     else [Original Warn args]) /\
  again.2 =
    (if noisy defaultPatterns (message args) then []
     else [Original Warn args]).
Proof.
  intros Hinst Hpat Hcalls Hback first again. subst first again.
  rewrite (step_ConsoleWarn _ _ Hback).
  rewrite (step_ConsoleWarn p args Hinst) in *.
  destruct (run_keeps_keys calls
              (with_manager p (console_warn (manager p) args)).1 Hcalls)
    as (Hpat2 & Hsub).
  unfold with_manager, already_warned, console_warn in *.
  cbn [fst snd manager] in *.
  rewrite Hpat.
  apply override_then_again; [apply defaultPatterns_warnKeys|done| |done].
  rewrite Hpat2. by rewrite (proj1 (override_fields _ _ _ _)).
Qed.

(** An instance of X3: a repeated warning about a tracking prevention,
    with the overrides removed and installed again in between. *)
Lemma console_warn_suppression_witness :
  let args := [AString "Tracking Prevention blocked access to storage"] in
  let calls := [Restore; ConsoleWarn [AString "common.js slow"]; Init;
                ConsoleError args] in
  (step load (ConsoleWarn args)).2 = [Original Warn args] /\
  (step (run (step load (ConsoleWarn args)).1 calls).1
     (ConsoleWarn args)).2 = [].
Proof.
  intros args calls.
  exact (console_warn_suppression load args calls eq_refl eq_refl eq_refl
           eq_refl).
Defined.

(** X4. The same holds for errors when the overrides were removed and
    installed again: [restore] keeps the recorded keys, so after [init] an
    error that was handled before is still dropped. *)
Theorem restore_keeps_recorded (p : Page) (args : list Arg)
    (calls : list Call) :
  installed p = true ->
  suppressPatterns (manager p) = defaultPatterns ->
  noisy defaultPatterns (message args) = true ->
  forallb (fun c => negb (clears_tracking c)) calls = true ->
  let handled := (step p (ConsoleError args)).1 in
  let later := (run handled (Restore :: calls ++ [Init])).1 in
  (step later (ConsoleError args)).2 = [].
Proof.
  intros Hinst Hpat Hnoisy Hcalls handled later.
  assert (Hall : forallb (fun c => negb (clears_tracking c))
                   (Restore :: calls ++ [Init]) = true).
  { simpl. rewrite forallb_app, Hcalls. done. }
  destruct (run_keeps_keys _ handled Hall) as (Hpat2 & Hsub).
  fold later in Hpat2, Hsub.
  assert (Hlater : installed later = true).
  { subst later. clear. generalize handled. intros q.
    change (Restore :: calls ++ [Init]) with ([Restore] ++ calls ++ [Init]).
    rewrite app_assoc.
    assert (Hrun : forall cs q, installed (run q (cs ++ [Init])).1 = true).
    { induction cs as [|c cs IH]; intros q'; simpl.
      - done.
      - destruct (step q' c) as [q1 o1]. specialize (IH q1).
        by destruct (run q1 (cs ++ [Init])). }
    apply Hrun. }
  rewrite (step_ConsoleError later args Hlater).
  subst handled. rewrite (step_ConsoleError p args Hinst) in *.
  unfold with_manager in *. cbn [fst snd manager] in *.
  assert (Hpat3 : suppressPatterns (manager later) = defaultPatterns).
  { rewrite Hpat2. unfold console_error.
    by rewrite (proj1 (override_fields _ _ _ _)). }
  clearbody later.
  destruct (override_then_again Error errorKey (manager p) (manager later) args
              defaultPatterns_errorKeys Hpat Hpat3 Hsub) as [_ Hagain].
  unfold console_error. by rewrite Hagain, Hnoisy.
Qed.

(** An instance of X4 on the freshly loaded page. *)
Lemma restore_keeps_recorded_witness :
  let args := [AString "Error getting users: offline"] in
  (step (run (step load (ConsoleError args)).1
           [Restore; ConsoleError args; EnableProductionLogging; Init]).1
     (ConsoleError args)).2 = [].
Proof.
  intros args.
  exact (restore_keeps_recorded load args
           [ConsoleError args; EnableProductionLogging]
           eq_refl eq_refl eq_refl eq_refl).
Defined.

End OverrideProperties.

Section IndependenceProperties.

Import ConsoleManager.

Lemma same_on_other_keys (A B E K : gset string) :
  A ⊆ B -> B ⊆ A ∪ E -> E ## K -> A ∩ K = B ∩ K.
Proof. set_solver. Qed.

Lemma run_cons_page p c rest : (run p (c :: rest)).1 = (run (step p c).1 rest).1.
Proof.
  simpl. destruct (step p c) as [p1 o1]. simpl. by destruct (run p1 rest).
Qed.

(** A run of calls of one override: the overrides and the patterns stay,
    and the keys it adds are keys of that override. *)
Lemma run_one_override (make : list Arg -> Call) level key
    (keys : gset string) :
  (forall p args, installed p = true ->
     step p (make args) = with_manager p (override level key (manager p) args)) ->
  list_to_set (key <$> defaultPatterns) = keys ->
  forall (messages : list (list Arg)) p,
    installed p = true ->
    suppressPatterns (manager p) = defaultPatterns ->
    let p' := (run p (make <$> messages)).1 in
    installed p' = true /\
    suppressPatterns (manager p') = defaultPatterns /\
    suppressedErrors (manager p) ⊆ suppressedErrors (manager p') /\
    suppressedErrors (manager p') ⊆ suppressedErrors (manager p) ∪ keys.
Proof.
  intros Hstep Hkeys messages.
  induction messages as [|args rest IH]; intros p Hi Hpat p'.
  - subst p'. simpl. repeat split; try done; set_solver.
  - subst p'. rewrite fmap_cons, run_cons_page, (Hstep p args Hi).
    destruct (override_fields level key (manager p) args) as [Hp Hs].
    pose proof (scan_grows key (suppressPatterns (manager p)) (message args)
                  (suppressedErrors (manager p))) as Hgrow.
    pose proof (scan_adds_keys key (suppressPatterns (manager p)) (message args)
                  (suppressedErrors (manager p))) as Hadd.
    rewrite <- Hs in Hgrow, Hadd. rewrite Hpat, Hkeys in Hadd.
    set (p1 := (with_manager p (override level key (manager p) args)).1).
    assert (Hm : manager p1 = (override level key (manager p) args).1) by done.
    destruct (IH p1 Hi (eq_trans Hp Hpat)) as (Hi' & Hpat' & Hsub & Hsup).
    rewrite Hm in Hsub, Hsup.
    split; [exact Hi'|]. split; [exact Hpat'|]. split.
    + by etrans.
    + clear - Hsup Hadd. set_solver.
Qed.

(** X5. Errors and warnings are tracked apart: with the constructor's
    patterns, whether a warning is passed on does not depend on the errors
    logged before it, and whether an error is passed on does not depend on
    the warnings logged before it. *)
Theorem errors_and_warnings_independent (p : Page)
    (before : list (list Arg)) (args : list Arg) :
  installed p = true ->
  suppressPatterns (manager p) = defaultPatterns ->
  (step (run p (ConsoleError <$> before)).1 (ConsoleWarn args)).2 =
    (step p (ConsoleWarn args)).2 /\
  (step (run p (ConsoleWarn <$> before)).1 (ConsoleError args)).2 =
    (step p (ConsoleError args)).2.
Proof.
  intros Hi Hpat. split.
  - destruct (run_one_override ConsoleError Error errorKey errorKeys
                step_ConsoleError eq_refl before p Hi Hpat)
      as (Hi' & Hpat' & Hsub & Hsup).
    rewrite (step_ConsoleWarn _ _ Hi'), (step_ConsoleWarn _ _ Hi).
    unfold with_manager, console_warn. cbn [fst snd].
    rewrite !override_output
      by (rewrite ?Hpat, ?Hpat'; apply defaultPatterns_warnKeys).
    rewrite Hpat, Hpat'.
    rewrite (hit_same_keys warnKey defaultPatterns (message args)
               (suppressedErrors (manager p))
               (suppressedErrors (manager (run p (ConsoleError <$> before)).1)));
      [done|].
    apply (same_on_other_keys _ _ errorKeys warnKeys Hsub Hsup).
    apply errorKeys_warnKeys_disjoint.
  - destruct (run_one_override ConsoleWarn Warn warnKey warnKeys
                step_ConsoleWarn eq_refl before p Hi Hpat)
      as (Hi' & Hpat' & Hsub & Hsup).
    rewrite (step_ConsoleError _ _ Hi'), (step_ConsoleError _ _ Hi).
    unfold with_manager, console_error. cbn [fst snd].
    rewrite !override_output
      by (rewrite ?Hpat, ?Hpat'; apply defaultPatterns_errorKeys).
    rewrite Hpat, Hpat'.
    rewrite (hit_same_keys errorKey defaultPatterns (message args)
               (suppressedErrors (manager p))
               (suppressedErrors (manager (run p (ConsoleWarn <$> before)).1)));
      [done|].
    apply (same_on_other_keys _ _ warnKeys errorKeys Hsub Hsup).
    symmetry. apply errorKeys_warnKeys_disjoint.
Qed.

(** An instance of X5: a warning about a script is passed on although an
    error with the same pattern was logged, and dropped, before it. *)
Lemma errors_and_warnings_independent_witness :
  let before := [[AString "common.js failed"]; [AString "common.js failed"]] in
  let args := [AString "common.js is slow"] in
  (step (run load (ConsoleError <$> before)).1 (ConsoleWarn args)).2 =
    [Original Warn args].
Proof.
  intros before args.
  exact (proj1 (errors_and_warnings_independent load before args
                  eq_refl eq_refl)).
Defined.

(** X6. After [restore] the console functions are the originals again:
    until [init] is called, every log, warning and error is handed over
    unchanged, and the three calls leave the manager as it is. *)
Theorem restore_ends_overrides (p : Page) (calls : list Call)
    (args : list Arg) :
  forallb (fun c => negb (is_init c)) calls = true ->
  let later := (run (step p Restore).1 calls).1 in
  step later (ConsoleLog args) = (later, [Original Log args]) /\
  step later (ConsoleWarn args) = (later, [Original Warn args]) /\
  step later (ConsoleError args) = (later, [Original Error args]).
Proof.
  intros Hcalls later.
  assert (Hoff : installed later = false).
  { subst later. generalize (eq_refl : installed (step p Restore).1 = false).
    generalize (step p Restore).1. clear p.
    induction calls as [|c rest IH]; intros q Hq; [done|].
    simpl in Hcalls. apply andb_true_iff in Hcalls as [Hc Hrest].
    simpl. assert (Hq1 : installed (step q c).1 = false).
    { destruct c; try discriminate; simpl; rewrite ?Hq; done. }
    destruct (step q c) as [q1 o1]. specialize (IH Hrest q1 Hq1).
    by destruct (run q1 rest). }
  clearbody later. simpl. unfold console_log_binding. by rewrite Hoff.
Qed.

(** An instance of X6: after [restore] a repeated noisy error is passed on
    both times. *)
Lemma restore_ends_overrides_witness :
  let args := [AString "Google Maps failed to load"] in
  let later := (run (step load Restore).1 [ConsoleError args]).1 in
  step later (ConsoleError args) = (later, [Original Error args]).
Proof.
  intros args later.
  exact (proj2 (proj2 (restore_ends_overrides load [ConsoleError args] args
                         eq_refl))).
Defined.

End IndependenceProperties.

(** ** The listener for unhandled rejections

    [setupPermissionErrorHandling] registers a listener that reads
    [event.reason?.message || ''] and calls [event.preventDefault()] when
    the text includes "Permission denied". *)

Inductive ListenerOutcome :=
| PreventDefault
| NoAction
| ListenerThrows (e : JsValue).

(** [reason?.message] *)
Definition optional_message (reason : JsValue) : JsValue :=
  match get_message reason with
  | inl v => v
  | inr _ => JUndefined
  end.

(** [v === s] for a string [s]. *)
Definition is_string (s : string) (v : JsValue) : bool :=
  match v with
  | JString s' => String.eqb s' s
  | _ => false
  end.

(** The listener. [msg.includes] is the substring test on a string and
    on a String object, and the search for an element on an array; a
    falsy message is replaced by the empty string; the other truthy
    values (true, a number, an Error, a plain object) have no method
    [includes], and the call throws. *)
Definition onUnhandledRejection (reason : JsValue) : ListenerOutcome :=
  let not_a_function :=
    ListenerThrows (JTypeError "msg.includes is not a function") in
  match optional_message reason with
  | JString s | JStringObject s =>
      if includes s "Permission denied" then PreventDefault else NoAction
  | JArray items =>
      if existsb (is_string "Permission denied") items then PreventDefault
      else NoAction
  | JUndefined | JNull => NoAction
  | JBoolean b => if b then not_a_function else NoAction
  | JNumber x => if is_nan x || is_zero x then NoAction else not_a_function
  | JError _ | JTypeError _ | JObject _ => not_a_function
  end.

Section LoggingProperties.

Import ConsoleManager.

Lemma override_debugCategories level key this args :
  debugCategories (override level key this args).1 = debugCategories this.
Proof. unfold override. by destruct (scan key _ _ _). Qed.

(** The overrides for errors and warnings leave the debug categories. *)
Lemma step_logging_debugCategories p c :
  match c with ConsoleError _ | ConsoleWarn _ => True | _ => False end ->
  debugCategories (manager (step p c).1) = debugCategories (manager p).
Proof.
  destruct c; try done; intros _; simpl; (destruct (installed p); [|done]);
    unfold with_manager, console_error, console_warn; cbn [fst manager];
    apply override_debugCategories.
Qed.

Lemma run_preserves (P : Page -> Prop) (allowed : Call -> bool) :
  (forall p c, allowed c = true -> P p -> P (step p c).1) ->
  forall calls p, forallb allowed calls = true -> P p -> P (run p calls).1.
Proof.
  intros Hstep. induction calls as [|c rest IH]; intros p Hcalls Hp; [done|].
  simpl in Hcalls. apply andb_true_iff in Hcalls as [Hc Hrest].
  rewrite run_cons_page. apply IH; [done|]. by apply Hstep.
Qed.

(** X7. After [enableVerboseMode], and until production mode is enabled
    again, [console.log] hands every message to the original function,
    tagged with a debug category or not. *)
Theorem verbose_shows_every_log (p : Page) (calls : list Call)
    (args : list Arg) :
  forallb (fun c => negb (is_production c)) calls = true ->
  (step (run (step p EnableVerboseLogging).1 calls).1 (ConsoleLog args)).2 =
    [Original Log args].
Proof.
  intros Hcalls.
  assert (Hall : all (debugCategories
                        (manager (run (step p EnableVerboseLogging).1 calls).1))
                 = true).
  { apply (run_preserves
             (fun q => all (debugCategories (manager q)) = true)
             (fun c => negb (is_production c))); [|done|done].
    intros q c Hc Hq. destruct c; try discriminate;
      try (by rewrite step_logging_debugCategories); simpl; try done.
    unfold enableDebugCategory, set_category.
      repeat match goal with
      | |- context [String.eqb ?a ?b] => destruct (String.eqb a b)
      end; simpl; done. }
  set (later := (run (step p EnableVerboseLogging).1 calls).1) in *.
  clearbody later. simpl. unfold console_log_binding, console_log.
  rewrite Hall, andb_false_r.
  destruct (installed _); [|done]. by destruct (existsb _ _).
Qed.

(** An instance of X7: a log tagged for the auth category after verbose
    mode and an unrelated call. *)
Lemma verbose_shows_every_log_witness :
  let args := [AString "[Auth] token refreshed"] in
  (step load (ConsoleLog args)).2 = [] /\
  (step (run (step load EnableVerboseLogging).1 [ResetConsoleTracking]).1
     (ConsoleLog args)).2 = [Original Log args].
Proof.
  intros args. split; [reflexivity|].
  exact (verbose_shows_every_log load [ResetConsoleTracking] args eq_refl).
Defined.

(** The lower-cased debug tag of a message, [''] without one. *)
Definition category (msg : string) : string :=
  default "" (toLowerCase <$> bracketed msg).

(** X8. A debug category cannot be switched off again: once
    [enableDebugCategory('booking')] has run, as [debugBooking] does,
    [console.log] shows every message whose tag names no category other
    than booking, whatever is called afterwards. *)
Theorem debugBooking_persists (p : Page) (calls : list Call)
    (args : list Arg) :
  includes (category (message args)) "auth" = false ->
  includes (category (message args)) "firebase" = false ->
  includes (category (message args)) "ui" = false ->
  (step (run (step p (EnableDebugCategory "booking")).1 calls).1
     (ConsoleLog args)).2 = [Original Log args].
Proof.
  intros Hauth Hfirebase Hui.
  assert (Hon : booking (debugCategories
                  (manager (run (step p (EnableDebugCategory "booking")).1
                              calls).1)) = true).
  { apply (run_preserves
             (fun q => booking (debugCategories (manager q)) = true)
             (fun _ => true)); [|by apply forallb_forall|done].
    intros q c _ Hq. destruct c;
      try (by rewrite step_logging_debugCategories); simpl; try done.
    unfold enableDebugCategory, set_category.
      repeat match goal with
      | |- context [String.eqb ?a ?b] => destruct (String.eqb a b)
      end; simpl; done. }
  set (later := (run (step p (EnableDebugCategory "booking")).1 calls).1) in *.
  clearbody later. simpl. unfold console_log_binding, console_log.
  fold (category (message args)).
  rewrite Hon, Hauth, Hfirebase, Hui. simpl. rewrite andb_false_r.
  destruct (installed _); [|done].
  repeat match goal with
  | |- context [if ?b then _ else _] => destruct b
  end; done.
Qed.

(** An instance of X8: a booking log is dropped in production mode and
    shown after [debugBooking], also when production mode is enabled once
    more. *)
Lemma debugBooking_persists_witness :
  let args := [AString "[BookingForm] slot picked"] in
  (step load (ConsoleLog args)).2 = [] /\
  (step (run (step load (EnableDebugCategory "booking")).1
           [EnableProductionLogging]).1 (ConsoleLog args)).2 =
    [Original Log args].
Proof.
  intros args. split; [reflexivity|].
  exact (debugBooking_persists load [EnableProductionLogging] args
           eq_refl eq_refl eq_refl).
Defined.

Lemma before_bracket_spec (s group : string) :
  before_bracket s = Some group ->
  includes group "]" = false /\
  exists after, s = (group ++ "]" ++ after)%string.
Proof.
  revert group. induction s as [|c s IH]; intros group; [done|].
  change (before_bracket (String c s))
    with (if Ascii.eqb c "]" then Some EmptyString
          else option_map (String c) (before_bracket s)).
  destruct (Ascii.eqb c "]") eqn:Hc.
  - intros [= <-]. apply Ascii.eqb_eq in Hc as ->. split; [done|by exists s].
  - destruct (before_bracket s) as [g|]; [|done].
    intros [= <-]. destruct (IH g eq_refl) as (Hg & after & ->).
    split; [|by exists after].
    change (includes (String c g) "]")
      with (String.prefix "]" (String c g) || includes g "]").
    rewrite Hg, orb_false_r.
    change (String.prefix "]" (String c g))
      with (if Ascii.ascii_dec "]" c then String.prefix "" g else false).
    destruct (Ascii.ascii_dec "]" c) as [<-|]; [|done].
    by rewrite Ascii.eqb_refl in Hc.
Qed.

(** X9. The debug tag [console.log] reads off a message is a real tag of
    it: a text that is not empty, holds no closing bracket and stands
    between an opening and a closing bracket of the message. *)
Theorem bracketed_sound (s group : string) :
  bracketed s = Some group ->
  group <> ""%string /\
  includes group "]" = false /\
  exists before after, s = (before ++ "[" ++ group ++ "]" ++ after)%string.
Proof.
  revert group. induction s as [|c s IH]; intros group; [done|].
  change (bracketed (String c s))
    with (if Ascii.eqb c "["
          then match before_bracket s with
               | Some (String c' g) => Some (String c' g)
               | _ => bracketed s
               end
          else bracketed s).
  assert (Hrest : bracketed s = Some group ->
            group <> ""%string /\ includes group "]" = false /\
            exists before after,
              String c s = (before ++ "[" ++ group ++ "]" ++ after)%string).
  { intros H. destruct (IH group H) as (Hne & Hno & before & after & ->).
    split; [done|]. split; [done|]. by exists (String c before), after. }
  destruct (Ascii.eqb c "[") eqn:Hc; [|done].
  destruct (before_bracket s) as [[|c' g]|] eqn:Hb; [done| |done].
  intros [= <-]. apply Ascii.eqb_eq in Hc as ->.
  destruct (before_bracket_spec s _ Hb) as (Hno & after & ->).
  split; [done|]. split; [done|]. by exists ""%string, after.
Qed.

(** An instance of X9. *)
Lemma bracketed_sound_witness :
  exists before after,
    "[] retry [Booking] saved [Auth]"%string =
      (before ++ "[" ++ "Booking" ++ "]" ++ after)%string.
Proof.
  exact (proj2 (proj2 (bracketed_sound "[] retry [Booking] saved [Auth]"
                         "Booking" eq_refl))).
Defined.

Lemma is_string_In (s : string) (items : list JsValue) :
  existsb (is_string s) items = true <-> In (JString s) items.
Proof.
  rewrite existsb_exists. split.
  - intros (v & Hin & Hv). destruct v; try discriminate.
    apply String.eqb_eq in Hv. by subst.
  - intros Hin. exists (JString s). split; [done|]. apply String.eqb_refl.
Qed.

(** X10. The listener for unhandled rejections never throws on a missing
    reason or on an Error: for [undefined] and [null] it does nothing, and
    for an Error it calls [preventDefault] exactly when the message
    includes "Permission denied". On all values, [preventDefault] is
    called exactly when the message is a string or a String object whose
    text includes "Permission denied", or an array that has the string
    "Permission denied" among its elements. *)
Theorem onUnhandledRejection_errors (reason : JsValue) :
  match reason with
  | JUndefined | JNull => onUnhandledRejection reason = NoAction
  | JError m | JTypeError m =>
      onUnhandledRejection reason =
        if includes m "Permission denied" then PreventDefault else NoAction
  | _ => True
  end /\
  (onUnhandledRejection reason = PreventDefault <->
   (exists s,
      (optional_message reason = JString s \/
       optional_message reason = JStringObject s) /\
      includes s "Permission denied" = true) \/
   (exists items,
      optional_message reason = JArray items /\
      In (JString "Permission denied") items)).
Proof.
  split; [by destruct reason|].
  unfold onUnhandledRejection.
  destruct (optional_message reason) as [| |b|x|s|m|m|fields|items|s]; split;
    try (by intros [(s' & [[=]|[=]] & _)|(items' & [=] & _)]); try done.
  - by destruct b.
  - by destruct (is_nan x || is_zero x).
  - destruct (includes s "Permission denied") eqn:Hs; [|done].
    intros _. left. eauto.
  - intros [(s' & [[= <-]|[=]] & ->)|(items' & [=] & _)]. done.
  - destruct (existsb _ items) eqn:Hitems; [|done].
    intros _. right. exists items. split; [done|]. by apply is_string_In.
  - intros [(s' & [[=]|[=]] & _)|(items' & [= <-] & Hin)].
    apply is_string_In in Hin. by rewrite Hin.
  - destruct (includes s "Permission denied") eqn:Hs; [|done].
    intros _. left. eauto.
  - intros [(s' & [[=]|[= <-]] & ->)|(items' & [=] & _)]. done.
Qed.

End LoggingProperties.

(** * Further properties of the adaptive performance helper *)

Section TimeoutBounds.

Import AdaptivePerformanceSystem JsNumber.

(** Faster networks and stronger devices first. *)
Definition network_rank (s : NetworkSpeed) : nat :=
  match s with fast => 0 | normal => 1 | slow => 2 end.

Definition device_rank (d : DeviceCapability) : nat :=
  match d with high => 0 | medium => 1 | low => 2 end.

(** The timeout is an integer of milliseconds between 96 and 135000. *)
Definition in_range (x : float) : bool :=
  match to_Z x with
  | Some n => (96 <=? n) && (n <=? 135000)
  | None => false
  end.

Lemma baseTimeout_number (operation : string) :
  existsb (String.eqb operation) objectPrototype = false ->
  In (or_5000 (get baseTimeouts operation))
    [Own 8000; Own 5000; Own 15000; Own 45000; Own 300; Own 150]%float.
Proof.
  intros Hproto. unfold get, baseTimeouts. cbn [own].
  repeat match goal with
  | |- context [String.eqb ?a operation] =>
      destruct (String.eqb a operation);
      [vm_compute; repeat first [left; reflexivity | right]|]
  end.
  rewrite Hproto. vm_compute. repeat first [left; reflexivity | right].
Qed.

(** X11. For every operation name that is no member of [Object.prototype],
    known or not, and in every state, [getTimeout] returns a whole number
    of milliseconds, at least 96 and at most 135000. *)
Theorem getTimeout_range (this : t) (operation : string) :
  existsb (String.eqb operation) objectPrototype = false ->
  exists n, to_Z (getTimeout this operation) = Some n /\ 96 <= n <= 135000.
Proof.
  intros Hproto.
  assert (Hrange : in_range (getTimeout this operation) = true).
  { unfold getTimeout.
    pose proof (baseTimeout_number operation Hproto) as Hbase.
    simpl in Hbase.
    repeat (destruct Hbase as [<- | Hbase]; [|try contradiction]);
      destruct this as [[] [] metrics]; vm_compute; reflexivity. }
  unfold in_range in Hrange.
  destruct (to_Z (getTimeout this operation)) as [n|]; [|done].
  exists n. split; [done|]. lia.
Qed.

(** An instance of X11 for a name that is not in the table. *)
Lemma getTimeout_range_witness :
  exists n,
    to_Z (getTimeout {| networkSpeed := slow; deviceCapability := low;
                        performanceMetrics := [] |} "profileSave") = Some n /\
    96 <= n <= 135000.
Proof.
  exact (getTimeout_range _ "profileSave" eq_refl).
Defined.

(** X12. A slower network or a weaker device never shortens a timeout:
    for the same operation, the timeout of a state is at most that of any
    state whose network is as slow or slower and whose device is as weak
    or weaker. *)
Theorem getTimeout_monotone (a b : t) (operation : string) :
  existsb (String.eqb operation) objectPrototype = false ->
  (network_rank (networkSpeed a) <= network_rank (networkSpeed b))%nat ->
  (device_rank (deviceCapability a) <= device_rank (deviceCapability b))%nat ->
  (getTimeout a operation <=? getTimeout b operation)%float = true.
Proof.
  intros Hproto Hnet Hdev. unfold getTimeout.
  pose proof (baseTimeout_number operation Hproto) as Hbase.
  simpl in Hbase.
  repeat (destruct Hbase as [<- | Hbase]; [|try contradiction]);
    destruct a as [[] [] ma], b as [[] [] mb]; simpl in Hnet, Hdev;
    try lia; vm_compute; reflexivity.
Qed.

(** An instance of X12. *)
Lemma getTimeout_monotone_witness :
  (getTimeout {| networkSpeed := fast; deviceCapability := medium;
                 performanceMetrics := [] |} "loginCheck"
   <=? getTimeout {| networkSpeed := slow; deviceCapability := medium;
                     performanceMetrics := [] |} "loginCheck")%float = true.
Proof.
  apply getTimeout_monotone; [reflexivity|simpl; lia|simpl; lia].
Defined.

End TimeoutBounds.

Section ClassificationProperties.

Import AdaptivePerformanceSystem JsNumber.

Ltac by_cases :=
  repeat match goal with
  | |- context [match ?x with _ => _ end] => destruct x
  end.

(** The effective types [detectNetworkSpeed] knows. *)
Definition knownTypes : list string := [ "4g"; "wifi"; "3g"; "2g"; "slow-2g" ].

(** X13. With a connection object, [detectNetworkSpeed] classifies wifi as
    fast, 3g as normal and slow-2g as slow. For any other effective type,
    or none, it leaves the network speed as it was: the page load time is
    consulted only when there is no connection object. *)
Theorem detectNetworkSpeed_other_types (env : Browser) (nav : Navigator)
    (c : Connection) (this : t) :
  navigator env = Some nav ->
  connection_api nav = Some c ->
  (effectiveType c = Some "wifi"%string ->
     networkSpeed (detectNetworkSpeed env this) = fast) /\
  (effectiveType c = Some "3g"%string ->
     networkSpeed (detectNetworkSpeed env this) = normal) /\
  (effectiveType c = Some "slow-2g"%string ->
     networkSpeed (detectNetworkSpeed env this) = slow) /\
  (effectiveType c = None -> detectNetworkSpeed env this = this) /\
  (forall s, effectiveType c = Some s ->
     existsb (String.eqb s) knownTypes = false ->
     detectNetworkSpeed env this = this).
Proof.
  intros Hnav Hc. unfold detectNetworkSpeed. rewrite Hnav.
  unfold connection_api in Hc. rewrite Hc.
  repeat split; try (intros ->; reflexivity).
  intros s -> Hs. unfold classify_effectiveType. simpl in Hs.
  repeat match goal with
  | |- context [String.eqb s ?a] => destruct (String.eqb s a); [done|]
  end. reflexivity.
Qed.

(** An instance of X13: an effective type the code does not know, on a
    page that took four seconds to load, leaves a fast classification. *)
Lemma detectNetworkSpeed_other_types_witness :
  let this := {| networkSpeed := fast; deviceCapability := medium;
                 performanceMetrics := [] |} in
  detectNetworkSpeed
    (browser_with (reports "5g")
       (Some {| loadEventEnd := 1700000004000;
                navigationStart := 1700000000000 |})) this = this.
Proof.
  intros this.
  exact (proj2 (proj2 (proj2 (proj2
           (detectNetworkSpeed_other_types
              (browser_with (reports "5g")
                 (Some {| loadEventEnd := 1700000004000;
                          navigationStart := 1700000000000 |}))
              (desktop (reports "5g"))
              {| effectiveType := Some "5g"%string;
                 downlink := Some 10%float |}
              this eq_refl eq_refl))))
           "5g"%string eq_refl eq_refl).
Defined.

(** X14. [detectDeviceCapability] never classifies as high a device with a
    mobile user agent or one that does not report its memory, and it
    classifies as low every device that does not report its cores. *)
Theorem detectDeviceCapability_limits (env : Browser) (nav : Navigator)
    (this : t) :
  navigator env = Some nav ->
  (isMobile (userAgent nav) = true \/ deviceMemory nav = None ->
     deviceCapability (detectDeviceCapability env this) <> high) /\
  (hardwareConcurrency nav = None ->
     deviceCapability (detectDeviceCapability env this) = low).
Proof.
  intros Hnav. unfold detectDeviceCapability. rewrite Hnav. split.
  - intros [Hmobile | Hmemory].
    + rewrite Hmobile, andb_false_r. by_cases; done.
    + rewrite Hmemory. cbn [number_or].
      change ((8 <=? 4)%float) with false.
      rewrite andb_false_r. cbn [andb]. by_cases; done.
  - intros ->. cbn [number_or].
    change ((4 <=? 1)%float) with false. change ((2 <=? 1)%float) with false.
    reflexivity.
Qed.

Definition phone : Navigator :=
  {| connection := None; mozConnection := None; webkitConnection := None;
     hardwareConcurrency := Some 8%float; deviceMemory := Some 8%float;
     userAgent := "Mozilla/5.0 (Linux; ANDROID 14) Mobile" |}.

(** An instance of X14: eight cores and eight gigabytes on a phone. *)
Lemma detectDeviceCapability_limits_witness :
  isMobile (userAgent phone) = true /\
  deviceCapability
    (detectDeviceCapability {| navigator := Some phone; performance := None |}
       fresh) <> high.
Proof.
  split; [reflexivity|].
  exact (proj1 (detectDeviceCapability_limits
                  {| navigator := Some phone; performance := None |}
                  phone fresh eq_refl) (or_introl eq_refl)).
Defined.

Lemma t_eq (a b : t) :
  networkSpeed a = networkSpeed b ->
  deviceCapability a = deviceCapability b ->
  performanceMetrics a = performanceMetrics b ->
  a = b.
Proof. destruct a, b. simpl. by intros -> -> ->. Qed.

Lemma detectDeviceCapability_networkSpeed env this :
  networkSpeed (detectDeviceCapability env this) = networkSpeed this.
Proof. unfold detectDeviceCapability. by_cases; reflexivity. Qed.

Lemma detectDeviceCapability_class env a b :
  deviceCapability (detectDeviceCapability env a) =
    deviceCapability (detectDeviceCapability env b).
Proof. unfold detectDeviceCapability. by_cases; reflexivity. Qed.

Lemma detectNetworkSpeed_speed env a b :
  networkSpeed a = networkSpeed b ->
  networkSpeed (detectNetworkSpeed env a) =
    networkSpeed (detectNetworkSpeed env b).
Proof.
  intros H. unfold detectNetworkSpeed. by_cases; simpl; congruence.
Qed.

Lemma detectNetworkSpeed_again env this :
  networkSpeed (detectNetworkSpeed env (detectNetworkSpeed env this)) =
    networkSpeed (detectNetworkSpeed env this).
Proof. unfold detectNetworkSpeed. by_cases; reflexivity. Qed.

(** X15. [reset] empties the metrics history and classifies the device as
    the constructor would in the same browser. It does not go back to the
    constructor's network speed: it keeps what detection gives from the
    current value. A second [reset] in the same browser changes none of
    the fields. *)
Theorem reset_properties (env : Browser) (this : t) :
  performanceMetrics (reset env this) = [] /\
  deviceCapability (reset env this) = deviceCapability (constructor env) /\
  networkSpeed (reset env this) = networkSpeed (detectNetworkSpeed env this) /\
  reset env (reset env this) = reset env this.
Proof.
  assert (Hspeed : forall x,
            networkSpeed (reset env x) =
              networkSpeed (detectNetworkSpeed env x)).
  { intros x. unfold reset, init.
    rewrite detectDeviceCapability_networkSpeed.
    by apply detectNetworkSpeed_speed. }
  assert (Hmetrics : forall x, performanceMetrics (reset env x) = []).
  { intros x. unfold reset, init.
    by rewrite detectDeviceCapability_metrics, detectNetworkSpeed_metrics. }
  repeat split.
  - apply Hmetrics.
  - apply detectDeviceCapability_class.
  - apply Hspeed.
  - apply t_eq.
    + rewrite Hspeed.
      rewrite (detectNetworkSpeed_speed env (reset env this)
                 (detectNetworkSpeed env this)).
      * rewrite detectNetworkSpeed_again. symmetry. apply Hspeed.
      * apply Hspeed.
    + apply detectDeviceCapability_class.
    + by rewrite !Hmetrics.
Qed.

(** X16. The memory check touches the device capability only, and it
    never raises it except from low: a device that is not low keeps its
    class or becomes low. *)
Theorem memoryCheck_only_downgrades (env : Browser) (this : t) :
  networkSpeed (memoryCheck env this) = networkSpeed this /\
  performanceMetrics (memoryCheck env this) = performanceMetrics this /\
  (deviceCapability this <> low ->
   deviceCapability (memoryCheck env this) = deviceCapability this \/
   deviceCapability (memoryCheck env this) = low).
Proof.
  split; [|split].
  - unfold memoryCheck. by_cases; try reflexivity.
    apply detectDeviceCapability_networkSpeed.
  - unfold memoryCheck. by_cases; try reflexivity.
    apply detectDeviceCapability_metrics.
  - intros Hlow. unfold memoryCheck.
    destruct (performance env) as [perf|]; [|by left].
    destruct (memory perf) as [mem|]; [|by left].
    destruct (_ <? _)%float; [by right|].
    destruct (_ <? _)%float; [|by left].
    destruct (deviceCapability this) eqn:E; [by left | by left | done].
Qed.

End ClassificationProperties.

Section HistoryProperties.

Import AdaptivePerformanceSystem JsNumber.

Lemma get_set_field (o : JsObject) (k : string) (v : JsValue) :
  get_field (set_field o k v) k = Some v.
Proof.
  induction o as [|[k' v'] rest IH]; simpl.
  - by rewrite String.eqb_refl.
  - destruct (String.eqb k' k) eqn:E; simpl.
    + by rewrite String.eqb_refl.
    + by rewrite E.
Qed.

Lemma get_set_field_other (o : JsObject) (k k' : string) (v : JsValue) :
  k' <> k -> get_field (set_field o k v) k' = get_field o k'.
Proof.
  intros Hne. induction o as [|[a x] rest IH]; simpl.
  - apply String.eqb_neq in Hne. rewrite String.eqb_sym in Hne.
    by rewrite Hne.
  - destruct (String.eqb a k) eqn:E; simpl.
    + apply String.eqb_eq in E. subst a.
      assert (String.eqb k k' = false) as ->; [|done].
      apply String.eqb_neq. congruence.
    + by rewrite IH.
Qed.

(** X17. [recordMetric] puts the new entry last, and in it the clock
    reading is the [timestamp], also when the metric passed in has a
    [timestamp] of its own; every other property reads as in the metric.
    The network speed and the device class are not touched. *)
Theorem recordMetric_timestamp (now : Z) (metric : JsObject) (this : t) :
  (exists earlier entry,
     performanceMetrics (recordMetric now metric this) = earlier ++ [entry] /\
     get_field entry "timestamp" = Some (JNumber (of_Z now)) /\
     forall k, k <> "timestamp"%string ->
       get_field entry k = get_field metric k) /\
  networkSpeed (recordMetric now metric this) = networkSpeed this /\
  deviceCapability (recordMetric now metric this) = deviceCapability this.
Proof.
  split; [|done].
  unfold recordMetric. cbn [performanceMetrics set_performanceMetrics].
  set (entry := set_field metric "timestamp" (JNumber (of_Z now))).
  assert (Hentry : get_field entry "timestamp" = Some (JNumber (of_Z now)) /\
                   forall k, k <> "timestamp"%string ->
                     get_field entry k = get_field metric k).
  { split; [apply get_set_field|].
    intros k Hk. by apply get_set_field_other. }
  clearbody entry.
  destruct (maxMetricsHistory <? _)%nat eqn:Hfull.
  - destruct (performanceMetrics this) as [|oldest earlier].
    + apply Nat.ltb_lt in Hfull. unfold maxMetricsHistory in Hfull.
      simpl in Hfull. lia.
    + exists earlier, entry. by split.
  - exists (performanceMetrics this), entry. by split.
Qed.

(** The last [n] elements of a list, in their order. *)
Definition most_recent {A} (n : nat) (l : list A) : list A :=
  drop (length l - n) l.

(** The entry [recordMetric] stores for a resource reported at [now]. *)
Definition stamped (e : ResourceEntry * Z) : JsObject :=
  set_field (resource_metric e.1) "timestamp" (JNumber (of_Z e.2)).

Lemma most_recent_short {A} (n : nat) (l : list A) :
  (length l <= n)%nat -> most_recent n l = l.
Proof.
  intros Hlen. unfold most_recent.
  by replace (length l - n)%nat with 0%nat by lia.
Qed.

Lemma most_recent_app {A} (n : nat) (l r : list A) :
  most_recent n (most_recent n l ++ r) = most_recent n (l ++ r).
Proof.
  destruct (Nat.le_gt_cases (length l) n) as [Hle|Hgt].
  - by rewrite (most_recent_short n l).
  - unfold most_recent.
    rewrite !length_app, length_drop, !skipn_app, length_drop, drop_drop.
    f_equal; f_equal; lia.
Qed.

Lemma recordMetric_most_recent now metric this :
  bounded this ->
  performanceMetrics (recordMetric now metric this) =
    most_recent maxMetricsHistory
      (performanceMetrics this ++
       [set_field metric "timestamp" (JNumber (of_Z now))]).
Proof.
  intros Hlen. rewrite recordMetric_metrics by done.
  unfold bounded, maxMetricsHistory, most_recent in *.
  rewrite length_app. cbn [length].
  destruct (_ <? 100)%nat eqn:Hroom.
  - apply Nat.ltb_lt in Hroom.
    by replace (length (performanceMetrics this) + 1 - 100)%nat
      with 0%nat by lia.
  - apply Nat.ltb_ge in Hroom.
    replace (length (performanceMetrics this) + 1 - 100)%nat
      with 1%nat by lia.
    destruct (performanceMetrics this); [simpl in Hroom; lia|reflexivity].
Qed.

(** X18. After the resource observer has reported a batch of entries, of
    any length, the history holds the most recent [maxMetricsHistory]
    entries of the old history followed by the batch, oldest first, each
    resource stamped with the clock reading of its own call. *)
Theorem resourceObserver_most_recent (entries : list (ResourceEntry * Z))
    (this : t) :
  (length (performanceMetrics this) <= maxMetricsHistory)%nat ->
  performanceMetrics (resourceObserver entries this) =
    most_recent maxMetricsHistory
      (performanceMetrics this ++ map stamped entries).
Proof.
  revert this. induction entries as [|[entry now] rest IH]; intros this Hlen.
  - simpl. rewrite app_nil_r. by rewrite most_recent_short.
  - cbn [resourceObserver map].
    rewrite IH by (by apply recordMetric_bounded).
    rewrite recordMetric_most_recent by done.
    rewrite most_recent_app. by rewrite <- app_assoc.
Qed.

(** An instance of X18: 150 resources reported to a new instance leave
    the last 100 of them. *)
Lemma resourceObserver_most_recent_witness :
  let batch :=
    map (fun i => (script, 1700000000000 + Z.of_nat i)) (seq 0 150) in
  performanceMetrics
    (resourceObserver batch (constructor (browser_with None None))) =
  map stamped (drop 50 batch).
Proof.
  intros batch.
  rewrite (resourceObserver_most_recent batch
             (constructor (browser_with None None)));
    [|simpl; unfold maxMetricsHistory; lia].
  reflexivity.
Defined.

End HistoryProperties.

Section RetryOutcomes.

Import AdaptivePerformanceSystem JsNumber.

Context {engine : Engine} {W : Type}.
Implicit Types (operation : Operation W) (w : W) (tr : list Event).

(** How the last of [n] calls of the operation settles. *)
Definition last_call operation (n : nat) w : option Settled :=
  awaited (operation (world_after operation (n - 1) w)).1.

(** What the caller of [executeWithRetry] gets after [n] calls, when the
    first attempt has number [attempt]: the value of the last call; no
    answer when the last call never settles; the error thrown by the read
    of [message] in the catch block of the last call; the error of the
    last call when it was attempt [maxAttempts]; or [lastError] when no
    call was made. *)
Definition outcome operation (maxAttempts attempt : Z) (lastError : JsValue)
    (n : nat) w (r : Result) : Prop :=
  match r with
  | Resolves v => (1 <= n)%nat /\ last_call operation n w = Some (Fulfilled v)
  | Hangs => (1 <= n)%nat /\ last_call operation n w = None
  | Rejects e =>
      (n = 0%nat /\ maxAttempts < attempt /\ e = lastError) \/
      ((1 <= n)%nat /\
       exists e', last_call operation n w = Some (Rejected e') /\
         (get_message e' = inr e \/
          (e = e' /\ Z.of_nat n = maxAttempts - attempt + 1 /\
           exists m, get_message e' = inl m)))
  end.

Lemma last_call_later operation (n : nat) w :
  last_call operation (S (S n)) w =
    last_call operation (S n) (operation w).2.
Proof.
  unfold last_call. by replace (S n - 1)%nat with n by lia.
Qed.

Lemma outcome_later operation maxAttempts attempt lastError e m n w r :
  attempt <= maxAttempts ->
  awaited (operation w).1 = Some (Rejected e) ->
  get_message e = inl m ->
  outcome operation maxAttempts (attempt + 1) e n (operation w).2 r ->
  outcome operation maxAttempts attempt lastError (S n) w r.
Proof.
  intros Hle Hcall Hmsg Hlater. destruct n as [|n].
  - destruct r as [v|e'|]; simpl in *; try (destruct Hlater; lia).
    destruct Hlater as [(_ & Hdone & ->)|[Hpos _]]; [|lia].
    right. split; [lia|]. exists e. split; [done|].
    right. split; [done|]. split; [lia|by exists m].
  - destruct r as [v|e'|]; simpl in *.
    + destruct Hlater as [_ Hlast]. split; [lia|].
      by rewrite last_call_later.
    + destruct Hlater as [(? & _)|(_ & e'' & Hlast & Hhow)]; [done|].
      right. split; [lia|]. exists e''. rewrite last_call_later.
      split; [done|].
      destruct Hhow as [Hthrows|(-> & Hn & Hm)]; [by left|].
      right. split; [done|]. split; [lia|done].
    + destruct Hlater as [_ Hlast]. split; [lia|].
      by rewrite last_call_later.
Qed.

Ltac count_calls k :=
  match goal with
  | |- context [invocations ?tr] => change (invocations tr) with k
  end.

Lemma attempts_outcome fuel operation name maxAttempts :
  forall attempt lastError w r w' tr,
    attempts fuel operation name maxAttempts attempt lastError w =
      Some (r, w', tr) ->
    Z.of_nat (invocations tr) <= Z.max 0 (maxAttempts - attempt + 1) /\
    w' = world_after operation (invocations tr) w /\
    outcome operation maxAttempts attempt lastError (invocations tr) w r.
Proof.
  induction fuel as [|fuel IH]; intros attempt lastError w r w' tr Hrun.
  - destruct (Z_lt_le_dec maxAttempts attempt) as [Hlt|Hle].
    + rewrite attempts_done in Hrun by lia. inversion Hrun; subst.
      count_calls 0%nat.
      split; [lia|]. split; [done|]. left. done.
    + simpl in Hrun. destruct (attempt <=? maxAttempts) eqn:E; [done|lia].
  - destruct (Z_lt_le_dec maxAttempts attempt) as [Hlt|Hle].
    + rewrite attempts_done in Hrun by lia. inversion Hrun; subst.
      count_calls 0%nat.
      split; [lia|]. split; [done|]. left. done.
    + rewrite attempts_step in Hrun by lia. cbn zeta in Hrun.
      destruct (awaited (operation w).1) as [[result|error]|] eqn:Hcall.
      * inversion Hrun; subst. count_calls 1%nat.
        split; [lia|]. split; [done|]. by split.
      * destruct (get_message error) as [message|typeError] eqn:Hmsg.
        -- destruct (attempts fuel operation name maxAttempts (attempt + 1)
                       error (operation w).2) as [[[r2 w2] later]|] eqn:Hlater;
             [|done].
           inversion Hrun; subst.
           destruct (IH _ _ _ _ _ _ Hlater) as (Hcount & Hworld & Hout).
           match goal with
           | |- context [invocations ?tr] =>
               assert (Hcalls : invocations tr = S (invocations later))
           end.
           { by destruct (attempt <? maxAttempts). }
           rewrite Hcalls.
           split; [lia|]. split; [by rewrite Hworld|].
           by apply outcome_later with error message.
        -- inversion Hrun; subst. count_calls 1%nat.
           split; [lia|]. split; [done|].
           right. split; [done|]. exists error. split; [done|]. by left.
      * inversion Hrun; subst. count_calls 1%nat.
        split; [lia|]. split; [done|]. by split.
Qed.

(** X19. Every run of [executeWithRetry] ends, after at most
    [maxAttempts] calls of the operation and none when [maxAttempts] is
    zero or negative. The promise resolves only with the value of the
    last call made, and it stays pending only when that call never
    settles. It is rejected with [undefined] when no call was made, with
    the error of the last call when that was attempt [maxAttempts], and
    otherwise with the error that reading [message] off the last call's
    error threw. *)
Theorem executeWithRetry_outcome operation (name : option string)
    (maxAttempts : option Z) w :
  exists r w' tr,
    executeWithRetry operation name maxAttempts w = Some (r, w', tr) /\
    Z.of_nat (invocations tr) <= Z.max 0 (default retryAttempts maxAttempts) /\
    w' = world_after operation (invocations tr) w /\
    outcome operation (default retryAttempts maxAttempts) 1 JUndefined
      (invocations tr) w r.
Proof.
  destruct (executeWithRetry_total operation name maxAttempts w)
    as [[[r w'] tr] Hrun].
  exists r, w', tr. split; [exact Hrun|].
  unfold executeWithRetry in Hrun.
  destruct (attempts_outcome _ _ _ _ _ _ _ _ _ _ Hrun)
    as (Hcount & Hworld & Hout).
  split; [lia|]. by split.
Qed.

Lemma attempts_first_success operation name maxAttempts v :
  forall (k fuel : nat) attempt lastError w,
    (1 <= k <= fuel)%nat ->
    attempt + Z.of_nat k - 1 <= maxAttempts ->
    (forall i, (i < k - 1)%nat ->
       exists e m,
         awaited (operation (world_after operation i w)).1 =
           Some (Rejected e) /\
         get_message e = inl m) ->
    last_call operation k w = Some (Fulfilled v) ->
    exists tr,
      attempts fuel operation name maxAttempts attempt lastError w =
        Some (Resolves v, world_after operation k w, tr) /\
      timeline tr = schedule k attempt.
Proof.
  induction k as [|k IH]; intros fuel attempt lastError w Hk Hmax Hfail Hlast;
    [lia|].
  destruct fuel as [|fuel]; [lia|].
  rewrite attempts_step by lia. cbn zeta.
  destruct k as [|k].
  - unfold last_call in Hlast. simpl in Hlast. rewrite Hlast.
    eexists. split; reflexivity.
  - destruct (Hfail 0%nat) as (e & m & Hcall & Hmsg); [lia|].
    simpl in Hcall. rewrite Hcall, Hmsg.
    destruct (IH fuel (attempt + 1) e (operation w).2)
      as (tr & Hrun & Htl).
    + lia.
    + lia.
    + intros i Hi. destruct (Hfail (S i)) as (e' & m' & Hcall' & Hmsg');
        [lia|]. by exists e', m'.
    + by rewrite <- last_call_later.
    + rewrite Hrun. destruct (attempt <? maxAttempts) eqn:E; [|lia].
      eexists. split; [reflexivity|].
      unfold timeline in *. cbn -[schedule]. by rewrite Htl.
Qed.

(** X20. When the first [k - 1] calls of the operation fail with errors
    whose [message] can be read and call [k] succeeds, for some [k] up to
    [maxAttempts], [executeWithRetry] resolves with the value of call
    [k]: the operation has been called [k] times and not again, and the
    timers of the pauses were started with the delays the engine computes
    for the attempts 1 to [k - 1], in order. *)
Theorem executeWithRetry_first_success operation (name : option string)
    (N : Z) (k : nat) w (v : JsValue) :
  (1 <= k)%nat -> Z.of_nat k <= N ->
  (forall i, (i < k - 1)%nat ->
     exists e m,
       awaited (operation (world_after operation i w)).1 =
         Some (Rejected e) /\
       get_message e = inl m) ->
  last_call operation k w = Some (Fulfilled v) ->
  exists tr,
    executeWithRetry operation name (Some N) w =
      Some (Resolves v, world_after operation k w, tr) /\
    invocations tr = k /\
    pauses tr = map (fun i => backoffDelay (Z.of_nat i)) (seq 1 (k - 1)).
Proof.
  intros Hk HN Hfail Hlast. unfold executeWithRetry. simpl default.
  destruct (attempts_first_success operation (default "operation"%string name)
              N v k (Z.to_nat N) 1 JUndefined w) as (tr & Hrun & Htl);
    [lia|lia|done|done|].
  exists tr. split; [exact Hrun|]. split.
  - rewrite <- invocations_timeline, Htl. apply schedule_invocations.
  - rewrite <- pauses_timeline, Htl. apply (schedule_pauses k 1).
Qed.

Lemma unrounded_delay_least (k : positive) :
  (1000 <= unrounded_delay (Z.pos k))%Q.
Proof.
  unfold unrounded_delay.
  assert (H : (1 <= (3 # 2) ^ (Z.pos k - 1))%Q).
  { apply Qpower_1_le; [done|lia]. }
  apply Qle_trans with (1000 * 1)%Q; [done|].
  apply Qmult_le_l; done.
Qed.

Lemma nearest_integer_grows (x y : Q) :
  (1000 <= x)%Q -> (y == (3 # 2) * x)%Q ->
  1000 <= nearest_integer x /\ nearest_integer x + 500 <= nearest_integer y.
Proof.
  intros Hx Hy. unfold nearest_integer. split.
  - rewrite <- (Qfloor_Z 1000). apply Qfloor_resp_le.
    apply Qle_trans with x; [done|].
    rewrite <- (Qplus_0_r x) at 1. apply Qplus_le_r. done.
  - rewrite <- (Qfloor_Z (Qfloor (x + (1 # 2)) + 500)).
    apply Qfloor_resp_le. rewrite inject_Z_plus.
    apply Qle_trans with (x + (1 # 2) + inject_Z 500)%Q.
    + apply Qplus_le_l. apply Qfloor_le.
    + rewrite Hy.
      apply Qle_trans with (x + (1 # 2) + (1 # 2) * x)%Q.
      * apply Qplus_le_r.
        apply Qle_trans with ((1 # 2) * 1000)%Q; [done|].
        apply Qmult_le_l; done.
      * apply Qle_lteq. right. ring.
Qed.

(** X21. On an engine whose [Math.pow] is exact where the power is a
    binary64 value, the delay computed after each of the first 33
    attempts is a whole number of milliseconds, never less than a second,
    and the delay computed after the next attempt is larger by at least
    half a second. *)
Theorem backoffDelay_grows (k : Z) :
  exact_powers engine ->
  1 <= k <= 33 ->
  exists d d',
    to_Z (backoffDelay k) = Some d /\
    to_Z (backoffDelay (k + 1)) = Some d' /\
    1000 <= d /\ d + 500 <= d'.
Proof.
  intros Hexact Hk.
  destruct (backoffDelay_exact k Hexact) as [Hd _]; [lia|].
  destruct (backoffDelay_exact (k + 1) Hexact) as [Hd' _]; [lia|].
  eexists _, _. split; [exact Hd|]. split; [exact Hd'|].
  destruct k as [|p|p]; [lia| |lia].
  apply nearest_integer_grows.
  - apply unrounded_delay_least.
  - apply unrounded_delay_grows.
Qed.

End RetryOutcomes.

Section RetryOutcomeExamples.

Import AdaptivePerformanceSystem JsNumber.

(** A server that is down for the first three requests. *)
Definition fourth_call_succeeds : Operation nat :=
  fun calls =>
    (if (calls <? 3)%nat
     then Returns (Settles 10 (Rejected (JError "unavailable")))
     else Returns (Settles 10 (Fulfilled (JString "ok"))),
     S calls).

(** An instance of X20 with five attempts allowed, on the engine with the
    correctly rounded power: four calls, and pauses of 1000, 1500 and
    2250 ms. *)
Lemma executeWithRetry_first_success_witness :
  exists tr,
    executeWithRetry (engine := correctly_rounded) fourth_call_succeeds None
      (Some 5) 0%nat =
      Some (Resolves (JString "ok"), 4%nat, tr) /\
    invocations tr = 4%nat /\
    pauses tr = [1000; 1500; 2250]%float.
Proof.
  apply (executeWithRetry_first_success (engine := correctly_rounded)
           fourth_call_succeeds None 5 4 0%nat (JString "ok")).
  - lia.
  - lia.
  - intros [|[|[|i]]] Hi; simpl;
      [by exists (JError "unavailable"), (JString "unavailable")..|lia].
  - reflexivity.
Defined.

(** An instance of X21 on the same engine: 2250 ms after the third
    attempt and 3375 ms after the fourth. *)
Lemma backoffDelay_grows_witness :
  exists d d',
    to_Z (backoffDelay (engine := correctly_rounded) 3) = Some d /\
    to_Z (backoffDelay (engine := correctly_rounded) (3 + 1)) = Some d' /\
    1000 <= d /\ d + 500 <= d'.
Proof.
  apply (backoffDelay_grows (engine := correctly_rounded) 3
           correctly_rounded_exact).
  lia.
Defined.

End RetryOutcomeExamples.

Section TimeoutOutcomes.

Import AdaptivePerformanceSystem JsNumber.

Context {engine : Engine} {W : Type}.
Implicit Types (operation : Operation W) (w : W).

(** What [this.baseTimeouts[operation] || 5000] can be. *)
Lemma baseTimeout_property (operation : string) :
  In (or_5000 (get baseTimeouts operation))
    [Own 8000; Own 5000; Own 15000; Own 45000; Own 300; Own 150;
     Inherited]%float.
Proof.
  unfold get, baseTimeouts. cbn [own].
  repeat match goal with
  | |- context [String.eqb ?a operation] =>
      destruct (String.eqb a operation);
      [vm_compute; repeat first [left; reflexivity | right]|]
  end.
  destruct (existsb _ _); vm_compute; repeat first [left; reflexivity | right].
Qed.

(** The timer of [executeWithTimeout] runs for 135 seconds at most. *)
Lemma timer_delay_bounded (this : t) (operationName : string) :
  0 <= timer_delay (getTimeout this operationName) <= 135000.
Proof.
  assert (Hrange :
    (timer_delay (getTimeout this operationName) <=? 135000) = true).
  { unfold getTimeout.
    pose proof (baseTimeout_property operationName) as Hbase.
    simpl in Hbase.
    repeat (destruct Hbase as [<- | Hbase]; [|try contradiction]);
      destruct this as [[] [] metrics]; vm_compute; reflexivity. }
  split; [unfold timer_delay; lia|lia].
Qed.

(** X22. Whatever the operation does, [executeWithTimeout] calls it once
    and never again, and when the call returns or throws, the promise it
    gives back settles, no later than the timer of
    [getTimeout(operationName)], which never runs longer than 135
    seconds. *)
Theorem executeWithTimeout_settles (this : t) operation
    (operationName : string) w :
  let run := executeWithTimeout this operation operationName w in
  invocations run.2 = 1%nat /\
  pauses run.2 = [] /\
  run.1.2 = (operation w).2 /\
  exists after how,
    run.1.1 = Settles after how /\
    after <= timer_delay (getTimeout this operationName) <= 135000.
Proof.
  pose proof (timer_delay_bounded this operationName) as Htimer.
  unfold executeWithTimeout.
  destruct (operation w) as [[p|e] w1]; cbn [fst snd].
  - repeat split.
    unfold Promise_race. cbn [fold_right].
    destruct p as [after how|]; simpl.
    + destruct (after <=? _) eqn:E; eexists _, _; split; try reflexivity; lia.
    + eexists _, _. split; [reflexivity|lia].
  - repeat split. exists 0, (Rejected e). split; [reflexivity|lia].
Qed.

(** [() => this.executeWithTimeout(operation, timeoutName)], the
    operation a caller passes to [executeWithRetry] to bound every
    attempt: an async method returns its promise and never throws. *)
Definition timed (this : t) operation (timeoutName : string) : Operation W :=
  fun w =>
    let run := executeWithTimeout this operation timeoutName w in
    (Returns run.1.1, run.1.2).

Lemma timed_world this operation timeoutName (n : nat) w :
  world_after (timed this operation timeoutName) n w =
    world_after operation n w.
Proof.
  revert w. induction n as [|n IH]; intros w; [done|].
  simpl. rewrite <- IH. f_equal.
  unfold executeWithTimeout. by destruct (operation w) as [[p|e] w1].
Qed.

Lemma timed_settles this operation timeoutName w :
  awaited (timed this operation timeoutName w).1 <> None.
Proof.
  unfold timed, executeWithTimeout.
  destruct (operation w) as [[p|e] w1]; cbn [fst snd]; [|done].
  unfold Promise_race. cbn [fold_right].
  destruct p as [after how|]; simpl; [|done].
  by destruct (after <=? _).
Qed.

(** X23. Retrying an operation that is wrapped in [executeWithTimeout]
    always comes to an end, whatever the operation does and also when
    its promises never settle: [executeWithRetry] resolves or rejects,
    after as many calls of the operation as attempts were made. *)
Theorem executeWithRetry_timed_settles (this : t) operation
    (timeoutName : string) (name : option string) (maxAttempts : option Z) w :
  exists r w' tr,
    executeWithRetry (timed this operation timeoutName) name maxAttempts w =
      Some (r, w', tr) /\
    r <> Hangs /\
    w' = world_after operation (invocations tr) w /\
    Z.of_nat (invocations tr) <= Z.max 0 (default retryAttempts maxAttempts).
Proof.
  destruct (executeWithRetry_total (timed this operation timeoutName) name
              maxAttempts w) as [[[r w'] tr] Hrun].
  exists r, w', tr. split; [exact Hrun|].
  unfold executeWithRetry in Hrun.
  destruct (attempts_outcome _ _ _ _ _ _ _ _ _ _ Hrun)
    as (Hcount & Hworld & Hout).
  rewrite timed_world in Hworld.
  split; [|split; [done|lia]].
  intros ->. destruct Hout as [_ Hlast]. unfold last_call in Hlast.
  by apply timed_settles in Hlast.
Qed.

(** X24. When no call of the operation is ever answered, retrying it
    under [executeWithTimeout] makes every attempt end in the timeout
    error: the operation is called [maxAttempts] times, a pause is
    started after each call but the last with the delay the engine
    computes for that attempt, and the caller gets the timeout error. *)
Theorem executeWithRetry_timed_unanswered (this : t) operation
    (timeoutName : string) (name : option string) (N : Z) w :
  (forall w, (operation w).1 = Returns Never) ->
  1 <= N ->
  exists tr,
    executeWithRetry (timed this operation timeoutName) name (Some N) w =
      Some (Rejects (timeout_error timeoutName (getTimeout this timeoutName)),
            world_after operation (Z.to_nat N) w, tr) /\
    invocations tr = Z.to_nat N /\
    pauses tr =
      map (fun i => backoffDelay (Z.of_nat i)) (seq 1 (Z.to_nat N - 1)).
Proof.
  intros Hnever HN.
  assert (Hcall : forall w,
            awaited (timed this operation timeoutName w).1 =
              Some (Rejected
                      (timeout_error timeoutName
                         (getTimeout this timeoutName)))).
  { intros w0. unfold timed, executeWithTimeout.
    specialize (Hnever w0). destruct (operation w0) as [c w1].
    simpl in Hnever. subst c. reflexivity. }
  assert (Hfails : always_fails (timed this operation timeoutName)).
  { intros w0. eexists _, _. split; [apply Hcall|reflexivity]. }
  unfold executeWithRetry. simpl default.
  destruct (attempts_always_failing (timed this operation timeoutName)
              (default "operation"%string name) N Hfails (Z.to_nat N) 1
              JUndefined w) as (e & tr & Hrun & Hlast & Hcount & Htl);
    [lia|lia|].
  rewrite Hcall in Hlast. injection Hlast as <-.
  exists tr. rewrite <- (timed_world this operation timeoutName).
  split; [exact Hrun|].
  split; [exact Hcount|].
  rewrite <- pauses_timeline, Htl. apply (schedule_pauses (Z.to_nat N) 1).
Qed.

End TimeoutOutcomes.

Section TimeoutOutcomeExamples.

Import AdaptivePerformanceSystem JsNumber.

(** An instance of X24: three attempts at loading the bookings on a slow
    network and a low-end device, none of them answered. *)
Lemma executeWithRetry_timed_unanswered_witness :
  let this := {| networkSpeed := slow; deviceCapability := low;
                 performanceMetrics := [] |} in
  exists tr,
    executeWithRetry (engine := correctly_rounded)
      (timed this unanswered "bookingsLoad")
      (Some "load bookings"%string) (Some 3) 0%nat =
      Some (Rejects (JError "bookingsLoad timeout after 45000ms"), 3%nat, tr) /\
    invocations tr = 3%nat /\
    pauses tr = [1000; 1500]%float.
Proof.
  intros this.
  apply (executeWithRetry_timed_unanswered (engine := correctly_rounded)
           this unanswered "bookingsLoad"
           (Some "load bookings"%string) 3 0%nat).
  - reflexivity.
  - lia.
Defined.

End TimeoutOutcomeExamples.
